(** * French-Translation: a shallow embedding of the BLEU scorer, the tensor
    checks, the decoding loops of the encoder-decoder model and the
    training/inference runner, with the properties stated about them.

    Conventions of the embedding.
    - Python [int] is [Z]; sizes and loop indices that the code only obtains
      from [len] or [range] are [nat].
    - Python [float] is the kernel's binary64 [float] ([PrimFloat]); the two
      [libm] functions the scorer calls ([exp] and [**]) are section
      variables, because they are not part of the source.
    - Token ids are [Z]; a 2-D [LongTensor] is a list of rows together with
      the size of its last dimension (a tensor with no row still has one).
    - An exception is a constructor of [exn]; code that may raise returns a
      [result]; code that mutates an object returns the new object as well. *)

From Stdlib Require Import String Ascii ZArith Bool Lia Arith List.
From Stdlib Require Import Sorted Floats Uint63 DecimalString.
Import ListNotations.

Set Implicit Arguments.

(** ** Exceptions and results *)

Inductive exn : Type :=
| IndexError
| ZeroDivisionError
| NameError (name : string)
| AttributeError (msg : string)
| ValueError (msg : string)
| ArgumentTypeError (msg : string)
| RuntimeError (msg : string)
| OSError (msg : string)
| StopIteration.

Inductive result (A : Type) : Type :=
| Ok (a : A)
| Raise (e : exn).

Arguments Ok {A} a.
Arguments Raise {A} e.

Definition bind {A B : Type} (r : result A) (k : A -> result B) : result B :=
  match r with
  | Ok a => k a
  | Raise e => Raise e
  end.

Notation "x <- r ;; k" := (bind r (fun x => k))
  (at level 61, r at next level, right associativity).

(** [[f(x) for x in l]] where [f] may raise. *)
Fixpoint mapM {A B : Type} (f : A -> result B) (l : list A) : result (list B) :=
  match l with
  | [] => Ok []
  | x :: rest => y <- f x ;; ys <- mapM f rest ;; Ok (y :: ys)
  end.

(** [l[i]] for an index that is not negative. *)
Definition item {A : Type} (l : list A) (i : nat) : result A :=
  match nth_error l i with
  | Some x => Ok x
  | None => Raise IndexError
  end.

Lemma bind_Ok {A B : Type} (r : result A) (k : A -> result B) (y : B) :
  bind r k = Ok y -> exists a, r = Ok a /\ k a = Ok y.
Proof.
  destruct r as [a|e]; simpl; [eauto|discriminate].
Qed.

(** Inverting [x <- r ;; k = Ok y] in a hypothesis. *)
Tactic Notation "bind_inv" hyp(H) "as" ident(a) ident(Ha) :=
  apply bind_Ok in H; destruct H as [a [Ha H]].

Lemma item_In {A : Type} (l : list A) (i : nat) (x : A) :
  item l i = Ok x -> In x l.
Proof.
  unfold item. destruct (nth_error l i) eqn:E; [|discriminate].
  intros [= <-]. eapply nth_error_In; eauto.
Qed.

Lemma mapM_Forall {A B : Type} (f : A -> result B) (P : B -> Prop) (l : list A) :
  forall ys, mapM f l = Ok ys ->
  (forall x y, In x l -> f x = Ok y -> P y) -> Forall P ys.
Proof.
  induction l as [|x l IH]; simpl; intros ys H HP.
  - injection H as <-. constructor.
  - bind_inv H as y Hy. bind_inv H as ys' Hys. injection H as <-. constructor.
    + eapply HP; eauto.
    + apply IH; auto. intros; eapply HP; eauto.
Qed.

Lemma In_firstn {A : Type} (n : nat) (l : list A) (x : A) :
  In x (firstn n l) -> In x l.
Proof.
  revert l. induction n as [|n IH]; intros [|y l]; simpl; try tauto.
  intros [->|H]; auto.
Qed.

Lemma mapM_length {A B : Type} (f : A -> result B) (l : list A) :
  forall ys, mapM f l = Ok ys -> length ys = length l.
Proof.
  induction l as [|x l IH]; simpl; intros ys H.
  - now injection H as <-.
  - bind_inv H as y Hy. bind_inv H as ys' Hys. injection H as <-.
    simpl. f_equal. auto.
Qed.

(** ** Small list utilities shared by the modules *)

(** Python's [s[i:j]] for [0 <= i <= j]. *)
Definition slice {A : Type} (s : list A) (i j : nat) : list A :=
  firstn (j - i) (skipn i s).

Fixpoint list_eqb {A : Type} (eqb : A -> A -> bool) (xs ys : list A) : bool :=
  match xs, ys with
  | [], [] => true
  | x :: xs', y :: ys' => eqb x y && list_eqb eqb xs' ys'
  | _, _ => false
  end.

(** Python's [x in l]. *)
Definition in_list {A : Type} (eqb : A -> A -> bool) (x : A) (l : list A) : bool :=
  existsb (eqb x) l.

(** [l[j] = v] for an index in range; out of range the code would raise, and
    no caller of this file reaches that case. *)
Fixpoint list_set {A : Type} (l : list A) (j : nat) (v : A) : list A :=
  match l, j with
  | [], _ => []
  | _ :: t, O => v :: t
  | h :: t, S j' => h :: list_set t j' v
  end.

(** [int] to [float], as Python converts an [int] operand of a float
    operation (exact below 2^53 in absolute value). *)
Definition Z2float (z : Z) : float :=
  if (z <? 0)%Z then PrimFloat.opp (PrimFloat.of_uint63 (Uint63.of_Z (- z)))
  else PrimFloat.of_uint63 (Uint63.of_Z z).

Definition nat2float (n : nat) : float := Z2float (Z.of_nat n).

(** * blue_score.py *)

Module Bleu.

Section Scorer.

(** [math.exp] and the float power [**]. *)
Variable fexp : float -> float.
Variable fpow : float -> float -> float.

Definition token := string.

Definition ngram_eqb : list token -> list token -> bool := list_eqb String.eqb.

(** The loop of [grouper]: [for i in range(len(seq))], leaving at the first
    [i] with [i + n > len(seq)]. *)
Fixpoint grouper_loop (s : list token) (n : nat) (idx : list nat)
                      (ngrams : list (list token)) : list (list token) :=
  match idx with
  | [] => ngrams
  | i :: rest =>
      if length s <? i + n then ngrams
      else grouper_loop s n rest (ngrams ++ [slice s i (i + n)])
  end.

Definition grouper (s : list token) (n : nat) : list (list token) :=
  grouper_loop s n (seq 0 (length s)) [].

(** The counting loop of [n_gram_precision]. *)
Definition count_matches (ref c : list (list token)) : nat :=
  fold_left (fun cnt ngram => if in_list ngram_eqb ngram ref then S cnt else cnt) c 0.

Definition n_gram_precision (reference candidate : list token) (n : nat) : float :=
  if (length candidate <? n) || (length reference <? n) then 0%float
  else
    let ref := grouper reference n in
    let c := grouper candidate n in
    if length c =? 0 then 0%float
    else (nat2float (count_matches ref c) / nat2float (length c))%float.

Definition brevity_penalty (reference candidate : list token) : float :=
  if length candidate =? 0 then 0%float
  else
    let r := (nat2float (length reference) / nat2float (length candidate))%float in
    if PrimFloat.ltb r 1%float then 1%float
    else fexp (1 - r)%float.

(** [range(1, n + 1)] *)
Definition range1 (n : Z) : list nat := seq 1 (Z.to_nat n).

Definition BLEU_score (reference candidate : list token) (n : Z) : result float :=
  if (Z.of_nat (length candidate) <? n)%Z then Ok 0%float
  else
    let bp := brevity_penalty reference candidate in
    let p := fold_left (fun p i => (p * n_gram_precision reference candidate i)%float)
                       (range1 n) 1%float in
    if (n =? 0)%Z then Raise ZeroDivisionError
    else Ok (bp * fpow p (1 / Z2float n) * 100)%float.

(** *** The scorer as the specification words it *)

(** The [n]-gram that starts at position [i]. *)
Definition window (s : list token) (i n : nat) : list token :=
  firstn n (skipn i s).

(** The start positions of the [n]-grams of [s], in order. *)
Definition positions (s : list token) (n : nat) : list nat :=
  filter (fun i => i + n <=? length s) (seq 0 (length s)).

(** The [n]-gram of [s] at [i] occurs somewhere in [r]. *)
Definition occurs (r : list token) (n : nat) (g : list token) : bool :=
  existsb (fun j => ngram_eqb g (window r j n)) (positions r n).

(** Every candidate position whose [n]-gram occurs in the reference counts,
    however often the same [n]-gram was counted before. *)
Definition unclipped_matches (reference candidate : list token) (n : nat) : nat :=
  length (filter (fun i => occurs reference n (window candidate i n))
                 (positions candidate n)).

Definition precision_spec (reference candidate : list token) (n : nat) : float :=
  if (length candidate <? n) || (length reference <? n) then 0%float
  else if length (positions candidate n) =? 0 then 0%float
  else (nat2float (unclipped_matches reference candidate n)
        / nat2float (length (positions candidate n)))%float.

(** The product of the precisions of orders [1..n], multiplied in that order
    starting from [1]. *)
Fixpoint precision_product (reference candidate : list token) (n : nat) : float :=
  match n with
  | O => 1%float
  | S k => (precision_product reference candidate k
            * precision_spec reference candidate (S k))%float
  end.

(** *** Refinement of the loops *)

Lemma grouper_loop_filter s n idx acc :
  StronglySorted lt idx ->
  grouper_loop s n idx acc =
  acc ++ map (fun i => window s i n) (filter (fun i => i + n <=? length s) idx).
Proof.
  revert acc. induction idx as [|i rest IH]; intros acc Hs; simpl.
  - now rewrite app_nil_r.
  - apply StronglySorted_inv in Hs as [Hrest Hall].
    destruct (Nat.ltb_spec (length s) (i + n)) as [Hlt|Hge].
    + destruct (Nat.leb_spec (i + n) (length s)) as [Hle|_]; [lia|].
      assert (Hnone : filter (fun j => j + n <=? length s) rest = []).
      { rewrite Forall_forall in Hall.
        clear IH Hrest. induction rest as [|j r IHr]; simpl; auto.
        assert (i < j) by (apply Hall; now left).
        destruct (Nat.leb_spec (j + n) (length s)); [lia|].
        apply IHr. intros x Hx. apply Hall. now right. }
      rewrite Hnone. simpl. now rewrite app_nil_r.
    + destruct (Nat.leb_spec (i + n) (length s)) as [_|Hgt]; [|lia].
      rewrite IH by assumption.
      simpl. rewrite <- app_assoc. simpl. unfold slice, window.
      now replace (i + n - i) with n by lia.
Qed.

Lemma seq_StronglySorted len start : StronglySorted lt (seq start len).
Proof.
  revert start. induction len as [|len IH]; intros start; simpl; constructor.
  - apply IH.
  - rewrite Forall_forall. intros x Hx. apply in_seq in Hx. lia.
Qed.

Lemma grouper_windows s n :
  grouper s n = map (fun i => window s i n) (positions s n).
Proof.
  unfold grouper, positions.
  rewrite grouper_loop_filter; [reflexivity|apply seq_StronglySorted].
Qed.

Lemma count_matches_acc ref c k :
  fold_left (fun cnt ngram => if in_list ngram_eqb ngram ref then S cnt else cnt) c k =
  k + length (filter (fun g => in_list ngram_eqb g ref) c).
Proof.
  revert k. induction c as [|g c IH]; intros k; simpl; [lia|].
  destruct (in_list ngram_eqb g ref); rewrite IH; simpl; lia.
Qed.

Lemma filter_map_length {A B : Type} (f : A -> B) (p : B -> bool) (l : list A) :
  length (filter p (map f l)) = length (filter (fun a => p (f a)) l).
Proof.
  induction l as [|a l IH]; simpl; auto.
  destruct (p (f a)); simpl; auto.
Qed.

Lemma in_list_occurs r n g :
  in_list ngram_eqb g (grouper r n) = occurs r n g.
Proof.
  unfold in_list, occurs. rewrite grouper_windows.
  induction (positions r n) as [|j l IH]; simpl; auto.
  now rewrite IH.
Qed.

Lemma count_matches_unclipped reference candidate n :
  count_matches (grouper reference n) (grouper candidate n) =
  unclipped_matches reference candidate n.
Proof.
  unfold count_matches, unclipped_matches.
  rewrite count_matches_acc. simpl.
  rewrite (grouper_windows candidate), filter_map_length.
  f_equal. apply filter_ext. intros i. apply in_list_occurs.
Qed.

Lemma n_gram_precision_refines reference candidate n :
  n_gram_precision reference candidate n = precision_spec reference candidate n.
Proof.
  unfold n_gram_precision, precision_spec.
  destruct ((length candidate <? n) || (length reference <? n)); auto.
  rewrite count_matches_unclipped.
  now rewrite (grouper_windows candidate), length_map.
Qed.

Lemma product_loop reference candidate k :
  fold_left (fun p i => (p * n_gram_precision reference candidate i)%float)
            (seq 1 k) 1%float
  = precision_product reference candidate k.
Proof.
  induction k as [|k IH]; [reflexivity|].
  rewrite seq_S, fold_left_app, IH. simpl.
  now rewrite n_gram_precision_refines.
Qed.

(** C4. For [n >= 1], [BLEU_score] returns [0.0] when the candidate has
    fewer than [n] tokens, and otherwise the brevity penalty times the
    [1/n]-th power of the product over the orders [1..n] of the n-gram
    precisions, times [100.0]; the precision of an order counts every
    candidate position whose n-gram occurs anywhere among the reference's
    n-grams, with no clipping. *)
Theorem BLEU_score_spec (reference candidate : list token) (n : Z) :
  (1 <= n)%Z ->
  BLEU_score reference candidate n =
  Ok (if (Z.of_nat (length candidate) <? n)%Z then 0%float
      else (brevity_penalty reference candidate
            * fpow (precision_product reference candidate (Z.to_nat n))
                   (1 / Z2float n)
            * 100)%float).
Proof.
  intros Hn. unfold BLEU_score.
  destruct (Z.of_nat (length candidate) <? n)%Z; auto.
  destruct (Z.eqb_spec n 0) as [->|_]; [lia|].
  unfold range1. now rewrite product_loop.
Qed.

End Scorer.

(** *** Further properties of the scorer *)

Lemma positions_count (L n m : nat) :
  length (filter (fun i => i + n <=? L) (seq 0 m)) = Nat.min m (L + 1 - n).
Proof.
  induction m as [|m IH]; [reflexivity|].
  rewrite seq_S, filter_app, length_app, IH. cbn [filter Nat.add].
  destruct (Nat.leb_spec (m + n) L); cbn [length]; lia.
Qed.

Lemma window_length (s : list token) (i n : nat) :
  i + n <= length s -> length (window s i n) = n.
Proof.
  intros H. unfold window. rewrite length_firstn, length_skipn. lia.
Qed.

(** X1. [grouper] returns [len(seq) - n + 1] n-grams when [1 <= n <= len(seq)],
    none when [n] is larger, and [len(seq)] empty ones when [n = 0]; each
    n-gram has exactly [n] tokens. *)
Theorem grouper_count_and_size (s : list token) (n : nat) :
  length (grouper s n) = Nat.min (length s) (length s + 1 - n)
  /\ Forall (fun g => length g = n) (grouper s n).
Proof.
  rewrite grouper_windows. split.
  - rewrite length_map. apply positions_count.
  - rewrite Forall_map. apply Forall_forall. intros i Hi.
    apply filter_In in Hi as [_ Hi]. apply Nat.leb_le in Hi.
    now apply window_length.
Qed.

Lemma ngram_eqb_refl (g : list token) : ngram_eqb g g = true.
Proof.
  unfold ngram_eqb. induction g as [|t g IH]; [reflexivity|].
  simpl. now rewrite String.eqb_refl, IH.
Qed.

Lemma in_list_self (g : list token) (c : list (list token)) :
  In g c -> in_list ngram_eqb g c = true.
Proof.
  intros H. unfold in_list. apply existsb_exists.
  exists g. split; [assumption|apply ngram_eqb_refl].
Qed.

(** X2. The number of matches that [n_gram_precision] divides by the number of
    candidate n-grams never exceeds that number, and reaches it when the
    n-grams of the candidate are those of the reference. *)
Theorem count_matches_bounds (ref c : list (list token)) :
  count_matches ref c <= length c /\ count_matches c c = length c.
Proof.
  unfold count_matches. rewrite !count_matches_acc. simpl. split.
  - apply filter_length_le.
  - f_equal. rewrite <- (filter_ext_in (fun _ => true)).
    + clear. induction c; simpl; congruence.
    + intros g Hg. symmetry. now apply in_list_self.
Qed.

(** X3. [BLEU_score] raises exactly when [n = 0], whatever the sequences are:
    the candidate is never shorter than [0] tokens and [1/n] divides by
    zero. *)
Theorem BLEU_score_raises_iff_order_zero
        (fexp : float -> float) (fpow : float -> float -> float)
        (reference candidate : list token) (n : Z) :
  (exists e, BLEU_score fexp fpow reference candidate n = Raise e) <-> n = 0%Z.
Proof.
  unfold BLEU_score. split.
  - intros [e H].
    destruct (Z.of_nat (length candidate) <? n)%Z; [discriminate|].
    destruct (Z.eqb_spec n 0); [assumption|discriminate].
  - intros ->. exists ZeroDivisionError.
    destruct (Z.ltb_spec (Z.of_nat (length candidate)) 0); [lia|reflexivity].
Qed.

(** *** Concrete runs *)

(** With the exponent [1.0] the float power returns its base, which is all
    a run at [n = 1] asks of it. *)
Definition pow_exponent_one (x y : float) : float := x.

(** A candidate longer than its reference never reaches [math.exp]. *)
Definition exp_not_called (x : float) : float := x.

Example grouper_bigrams :
  grouper ["the"; "cat"; "sat"]%string 2 =
  [["the"; "cat"]; ["cat"; "sat"]]%string.
Proof. reflexivity. Qed.

Example grouper_too_long : grouper ["a"; "b"]%string 3 = [].
Proof. reflexivity. Qed.

Example precision_candidate_too_short :
  n_gram_precision ["a"; "b"; "c"]%string ["a"; "b"]%string 3 = 0%float.
Proof. reflexivity. Qed.

(** A unigram repeated in the candidate and present once in the reference
    is counted at both of its positions. *)
Example precision_not_clipped :
  n_gram_precision ["a"]%string ["a"; "a"]%string 1 = 1%float.
Proof. reflexivity. Qed.

Example brevity_penalty_empty_candidate :
  brevity_penalty exp_not_called ["a"; "b"]%string [] = 0%float.
Proof. reflexivity. Qed.

Example brevity_penalty_longer_candidate :
  brevity_penalty exp_not_called ["a"; "b"]%string ["a"; "b"; "c"; "d"]%string = 1%float.
Proof. reflexivity. Qed.

Example BLEU_score_order_zero :
  BLEU_score exp_not_called pow_exponent_one ["a"]%string ["a"; "b"]%string 0 =
  Raise ZeroDivisionError.
Proof. reflexivity. Qed.

Lemma BLEU_score_spec_witness :
  (1 <= 1)%Z /\
  BLEU_score exp_not_called pow_exponent_one
             ["the"; "cat"]%string ["the"; "cat"; "sat"]%string 1 =
  Ok (if (Z.of_nat (length ["the"; "cat"; "sat"]%string) <? 1)%Z then 0%float
      else (brevity_penalty exp_not_called ["the"; "cat"]%string
                            ["the"; "cat"; "sat"]%string
            * pow_exponent_one
                (precision_product ["the"; "cat"]%string
                                   ["the"; "cat"; "sat"]%string (Z.to_nat 1))
                (1 / Z2float 1)
            * 100)%float).
Proof.
  split; [lia|].
  apply (@BLEU_score_spec exp_not_called pow_exponent_one
           ["the"; "cat"]%string ["the"; "cat"; "sat"]%string 1).
  lia.
Defined.

End Bleu.

(** * utils.py *)

Module Utils.

(** ** [smart_open] *)

(** A [pathlib.Path]: its text and its [suffix] property. *)
Record Path : Type := mkPath { path_text : string; path_suffix : string }.

Inductive opener : Type := GzipOpen | BuiltinOpen.

(** What [smart_open] hands back: which opener produced the handle, on which
    path and with which mode string. *)
Record handle : Type := mkHandle {
  h_opener : opener;
  h_path : Path;
  h_mode : string
}.

(** [mode[-1]] *)
Fixpoint last_char (s : string) : option ascii :=
  match s with
  | EmptyString => None
  | String c EmptyString => Some c
  | String _ rest => last_char rest
  end.

Section SmartOpen.

(** What [open] or [gzip.open] does with a path and a mode: it returns, or
    it raises, an [OSError] with the system's text when the system refuses
    and a [ValueError] when the mode is not one it knows. *)
Variable os_open : opener -> Path -> string -> result unit.

Definition smart_open (path : Path) (mode : string) : result handle :=
  sel <- (if String.eqb (path_suffix path) ".gz" then
            match last_char mode with
            | None => Raise IndexError
            | Some c =>
                if Ascii.eqb c "b" then Ok (GzipOpen, mode)
                else Ok (GzipOpen, (mode ++ "t")%string)
            end
          else Ok (BuiltinOpen, mode)) ;;
  let '(open_, mode') := sel in
  match os_open open_ path mode' with
  | Raise (OSError e) =>
      Raise (ArgumentTypeError
               ("can't open '" ++ path_text path ++ "': " ++ e)%string)
  | Raise other => Raise other
  | Ok _ => Ok (mkHandle open_ path mode')
  end.

End SmartOpen.

(** ** [nan_check] *)

(** The elements of a tensor, flattened. *)
Definition tensor := list float.

Definition newline : string := String (ascii_of_nat 10) EmptyString.

Section Checks.

(** [str(t)] of a tensor, which is the library's. *)
Variable tensor_str : tensor -> string.

(** [t.isnan().any().item()] *)
Definition any_isnan (t : tensor) : bool := existsb (fun b => b) (map PrimFloat.is_nan t).

(** [print(a, b)] appends one line to standard output. *)
Definition print2 (stdout : list string) (a b : string) : list string :=
  stdout ++ [(a ++ " " ++ b ++ newline)%string].

Definition nan_check (stdout : list string) (t : tensor) (t_name : string)
  : result unit * list string :=
  let is_nan := any_isnan t in
  if is_nan then
    let stdout' := print2 stdout (tensor_str t) t_name in
    (Raise (ValueError ("NaNs in tensor " ++ tensor_str t)%string), stdout')
  else (Ok tt, stdout).

End Checks.

(** [needle in hay] for strings. *)
Fixpoint contains (needle hay : string) : bool :=
  String.prefix needle hay
  || match hay with
     | EmptyString => false
     | String _ rest => contains needle rest
     end.

Lemma any_isnan_true t :
  any_isnan t = true <-> exists x, In x t /\ PrimFloat.is_nan x = true.
Proof.
  unfold any_isnan. rewrite existsb_exists. split.
  - intros [b [Hin Hb]]. apply in_map_iff in Hin as [x [Hx Hin]].
    exists x. split; [assumption|congruence].
  - intros [x [Hin Hx]]. exists true. split; [|reflexivity].
    apply in_map_iff. exists x. auto.
Qed.

Lemma any_isnan_false t :
  any_isnan t = false <-> forall x, In x t -> PrimFloat.is_nan x = false.
Proof.
  split.
  - intros H x Hin. destruct (PrimFloat.is_nan x) eqn:E; [|reflexivity].
    assert (any_isnan t = true) by (apply any_isnan_true; eauto). congruence.
  - intros H. destruct (any_isnan t) eqn:E; [|reflexivity].
    apply any_isnan_true in E as [x [Hin Hx]]. rewrite H in Hx by assumption.
    discriminate.
Qed.

(** C9, as the code has it. A tensor with a NaN element makes [nan_check]
    print the tensor and the supplied name and raise a [ValueError] whose
    message is ["NaNs in tensor "] followed by the rendering of the tensor:
    the message is the same whatever the name is. A tensor with no NaN
    element makes it return without raising and without printing. *)
Theorem nan_check_spec (tensor_str : tensor -> string) (stdout : list string)
                       (t : tensor) (t_name : string) :
  ((exists x, In x t /\ PrimFloat.is_nan x = true) ->
     nan_check tensor_str stdout t t_name =
       (Raise (ValueError ("NaNs in tensor " ++ tensor_str t)%string),
        stdout ++ [(tensor_str t ++ " " ++ t_name ++ newline)%string]) /\
     forall other_name,
       fst (nan_check tensor_str stdout t other_name) =
       fst (nan_check tensor_str stdout t t_name)) /\
  ((forall x, In x t -> PrimFloat.is_nan x = false) ->
     nan_check tensor_str stdout t t_name = (Ok tt, stdout)).
Proof.
  split.
  - intros H. apply any_isnan_true in H. unfold nan_check. rewrite H.
    split; reflexivity.
  - intros H. apply any_isnan_false in H. unfold nan_check. now rewrite H.
Qed.

(** The rendering of a one-element tensor that holds a NaN. *)
Definition render_sample (t : tensor) : string := "tensor([nan])".

Lemma nan_check_spec_witness :
  (exists x, In x [nan] /\ PrimFloat.is_nan x = true) /\
  nan_check render_sample [] [nan] "weights" =
    (Raise (ValueError "NaNs in tensor tensor([nan])"),
     [("tensor([nan]) weights" ++ newline)%string]) /\
  (forall x, In x [1%float; infinity] -> PrimFloat.is_nan x = false) /\
  nan_check render_sample [] [1%float; infinity] "weights" = (Ok tt, []).
Proof.
  assert (Hnan : exists x, In x [nan] /\ PrimFloat.is_nan x = true).
  { exists nan. split; [now left|reflexivity]. }
  assert (Hfin : forall x, In x [1%float; infinity] -> PrimFloat.is_nan x = false).
  { intros x [<-|[<-|[]]]; reflexivity. }
  split; [exact Hnan|]. split.
  - exact (proj1 (proj1 (@nan_check_spec render_sample [] [nan] "weights") Hnan)).
  - split; [exact Hfin|].
    exact (proj2 (@nan_check_spec render_sample [] [1%float; infinity] "weights") Hfin).
Defined.

(** C9 as stated fails: the tensor holds a NaN, the check raises, and the
    message of the error does not contain the supplied name. *)
Lemma nan_check_message_omits_name :
  any_isnan [nan] = true /\
  fst (nan_check render_sample [] [nan] "weights") =
    Raise (ValueError "NaNs in tensor tensor([nan])") /\
  contains "weights" "NaNs in tensor tensor([nan])" = false.
Proof. repeat split. Qed.

(** ** Further properties of [smart_open] *)

Lemma last_char_app (s : string) (c : ascii) :
  last_char (s ++ String c EmptyString) = Some c.
Proof.
  induction s as [|a s IH]; [reflexivity|].
  simpl. rewrite IH. destruct (s ++ String c EmptyString)%string eqn:E; [|reflexivity].
  destruct s; discriminate.
Qed.

Lemma last_char_None (s : string) : last_char s = None -> s = EmptyString.
Proof.
  induction s as [|a s IH]; [reflexivity|].
  destruct s as [|b s]; [discriminate|].
  intros H. apply IH in H. discriminate.
Qed.

Lemma prefix_app (a b : string) : String.prefix a (a ++ b) = true.
Proof.
  induction a as [|c a IH]; simpl.
  - now destruct b.
  - destruct (ascii_dec c c); [assumption|contradiction].
Qed.

Lemma contains_prefix (needle hay : string) :
  String.prefix needle hay = true -> contains needle hay = true.
Proof.
  intros H. destruct hay; cbn [contains]; rewrite H; reflexivity.
Qed.

Lemma contains_app (needle pre post : string) :
  contains needle (pre ++ needle ++ post) = true.
Proof.
  induction pre as [|c pre IH].
  - change ("" ++ needle ++ post)%string with (needle ++ post)%string.
    apply contains_prefix, prefix_app.
  - change (contains needle (String c (pre ++ needle ++ post)) = true).
    simpl. rewrite IH. apply orb_true_r.
Qed.

Lemma contains_app_r (needle pre hay : string) :
  contains needle hay = true -> contains needle (pre ++ hay) = true.
Proof.
  intros H. induction pre as [|c pre IH]; [assumption|].
  change (contains needle (String c (pre ++ hay)) = true).
  simpl. rewrite IH. apply orb_true_r.
Qed.

Lemma prefix_refl (a : string) : String.prefix a a = true.
Proof.
  induction a as [|c a IH]; simpl; [reflexivity|].
  destruct (ascii_dec c c); [assumption|contradiction].
Qed.

(** X4. A handle that [smart_open] returns is on the path asked for; it comes
    from [gzip.open] exactly when the suffix is [".gz"], with a mode that
    then ends in ["b"] (as passed) or in an appended ["t"]; for any other
    suffix the mode is passed on untouched. *)
Theorem smart_open_handle (os_open : opener -> Path -> string -> result unit)
                          (path : Path) (mode : string) (h : handle) :
  smart_open os_open path mode = Ok h ->
  h_path h = path
  /\ os_open (h_opener h) path (h_mode h) = Ok tt
  /\ (if String.eqb (path_suffix path) ".gz"
      then h_opener h = GzipOpen
           /\ (last_char (h_mode h) = Some "b"%char
               \/ last_char (h_mode h) = Some "t"%char)
           /\ (h_mode h = mode \/ h_mode h = (mode ++ "t")%string)
      else h_opener h = BuiltinOpen /\ h_mode h = mode).
Proof.
  unfold smart_open. intros H. bind_inv H as sel Hsel.
  destruct sel as [open_ mode'].
  destruct (os_open open_ path mode') as [[]|e] eqn:Eopen;
    [|destruct e; discriminate].
  injection H as <-. simpl.
  split; [reflexivity|]. split; [assumption|].
  destruct (String.eqb (path_suffix path) ".gz").
  - destruct (last_char mode) as [c|] eqn:Elast; [|discriminate].
    destruct (Ascii.eqb_spec c "b"%char) as [->|Hc]; injection Hsel as <- <-.
    + auto.
    + split; [reflexivity|]. split; [right; apply last_char_app|now right].
  - injection Hsel as <- <-. auto.
Qed.

(** A sample file system: a mode has to be one of those [open] knows, and
    every path opens but those under ["/proc"]. *)
Definition sample_os (o : opener) (p : Path) (mode : string) : result unit :=
  if negb (in_list String.eqb mode ["r"; "w"; "rb"; "wb"; "rt"; "wt"]%string)
  then Raise (ValueError ("invalid mode: '" ++ mode ++ "'")%string)
  else if String.prefix "/proc" (path_text p)
       then Raise (OSError "Permission denied")
       else Ok tt.

Lemma smart_open_handle_witness :
  smart_open sample_os (mkPath "model.pt.gz" ".gz") "w"
  = Ok (mkHandle GzipOpen (mkPath "model.pt.gz" ".gz") "wt")
  /\ h_path (mkHandle GzipOpen (mkPath "model.pt.gz" ".gz") "wt")
     = mkPath "model.pt.gz" ".gz".
Proof.
  split; [reflexivity|].
  exact (proj1 (@smart_open_handle sample_os (mkPath "model.pt.gz" ".gz") "w"
                  (mkHandle GzipOpen (mkPath "model.pt.gz" ".gz") "wt") eq_refl)).
Defined.

(** The opener [smart_open] calls for a path, and the mode it passes on. *)
Definition selected_opener (path : Path) : opener :=
  if String.eqb (path_suffix path) ".gz" then GzipOpen else BuiltinOpen.

Definition passed_mode (path : Path) (mode : string) : string :=
  if String.eqb (path_suffix path) ".gz" then
    match last_char mode with
    | Some c => if Ascii.eqb c "b" then mode else (mode ++ "t")%string
    | None => mode
    end
  else mode.

(** X5. For a mode that is not empty, what [smart_open] does follows the
    opener it selects, called on the path with the mode it passes on. When
    that call raises [OSError], [smart_open] raises the argument error and
    its message holds both the path and the system's reason. Any other
    exception of that call, as the [ValueError] of a mode the opener does
    not know, leaves [smart_open] as it is. *)
Theorem smart_open_failure (os_open : opener -> Path -> string -> result unit)
                           (path : Path) (mode : string) :
  mode <> EmptyString ->
  (forall reason,
     os_open (selected_opener path) path (passed_mode path mode)
       = Raise (OSError reason) ->
     exists msg,
       smart_open os_open path mode = Raise (ArgumentTypeError msg)
       /\ contains (path_text path) msg = true
       /\ contains reason msg = true)
  /\ (forall e,
       os_open (selected_opener path) path (passed_mode path mode) = Raise e ->
       (forall reason, e <> OSError reason) ->
       smart_open os_open path mode = Raise e).
Proof.
  intros Hmode.
  assert (Hrun : smart_open os_open path mode =
                 match os_open (selected_opener path) path (passed_mode path mode) with
                 | Raise (OSError e) =>
                     Raise (ArgumentTypeError
                              ("can't open '" ++ path_text path ++ "': " ++ e)%string)
                 | Raise other => Raise other
                 | Ok _ => Ok (mkHandle (selected_opener path) path
                                        (passed_mode path mode))
                 end).
  { unfold smart_open, selected_opener, passed_mode.
    destruct (String.eqb (path_suffix path) ".gz"); [|reflexivity].
    destruct (last_char mode) as [c|] eqn:E.
    - destruct (Ascii.eqb c "b"); reflexivity.
    - apply last_char_None in E. contradiction. }
  split.
  - intros reason Hos.
    exists ("can't open '" ++ path_text path ++ "': " ++ reason)%string.
    split; [|split].
    + rewrite Hrun, Hos. reflexivity.
    + apply contains_app.
    + do 3 apply contains_app_r. apply contains_prefix, prefix_refl.
  - intros e Hos Hother. rewrite Hrun, Hos.
    destruct e; try reflexivity. now contradiction (Hother msg).
Qed.

Lemma smart_open_failure_witness :
  "wb"%string <> EmptyString
  /\ (exists msg,
        smart_open sample_os (mkPath "/proc/model.pt" ".pt") "wb"
        = Raise (ArgumentTypeError msg)
        /\ contains "/proc/model.pt" msg = true
        /\ contains "Permission denied" msg = true)
  /\ smart_open sample_os (mkPath "model.pt.gz" ".gz") "z"
     = Raise (ValueError "invalid mode: 'zt'").
Proof.
  split; [discriminate|]. split.
  - apply (proj1 (@smart_open_failure sample_os (mkPath "/proc/model.pt" ".pt") "wb"
                    ltac:(discriminate)) "Permission denied"%string).
    reflexivity.
  - apply (proj2 (@smart_open_failure sample_os (mkPath "model.pt.gz" ".gz") "z"
                    ltac:(discriminate)) (ValueError "invalid mode: 'zt'"%string)).
    + reflexivity.
    + discriminate.
Defined.

(** ** [inf_check] and [nan_inf_check] *)

Section MoreChecks.

Variable tensor_str : tensor -> string.

(** [t.isinf().any().item()] *)
Definition any_isinf (t : tensor) : bool :=
  existsb (fun b => b) (map PrimFloat.is_infinity t).

Definition inf_check (stdout : list string) (t : tensor) (t_name : string)
  : result unit * list string :=
  let is_inf := any_isinf t in
  if is_inf then
    let stdout' := print2 stdout (tensor_str t) t_name in
    (Raise (ValueError ("Infs in tensor " ++ tensor_str t)%string), stdout')
  else (Ok tt, stdout).

Definition nan_inf_check (stdout : list string) (t : tensor) (t_name : string)
  : result unit * list string :=
  match nan_check tensor_str stdout t t_name with
  | (Raise e, stdout') => (Raise e, stdout')
  | (Ok _, stdout') => inf_check stdout' t t_name
  end.

Lemma any_isinf_false t :
  any_isinf t = false <-> forall x, In x t -> PrimFloat.is_infinity x = false.
Proof.
  unfold any_isinf. split.
  - intros H x Hin. destruct (PrimFloat.is_infinity x) eqn:E; [|reflexivity].
    assert (existsb (fun b => b) (map PrimFloat.is_infinity t) = true).
    { apply existsb_exists. exists true. split; [|reflexivity].
      apply in_map_iff. eauto. }
    congruence.
  - intros H. destruct (existsb _ _) eqn:E; [|reflexivity].
    apply existsb_exists in E as [b [Hin Hb]].
    apply in_map_iff in Hin as [x [Hx Hin]]. rewrite H in Hx by assumption.
    congruence.
Qed.

(** X6. [nan_inf_check] returns without raising exactly when no element is a
    NaN or an infinity, and then prints nothing; when it raises it has
    printed one line; and a NaN is reported before an infinity is looked
    for. *)
Theorem nan_inf_check_passes_iff_finite (stdout : list string) (t : tensor)
                                        (t_name : string) :
  (fst (nan_inf_check stdout t t_name) = Ok tt <->
   forall x, In x t -> PrimFloat.is_nan x = false /\ PrimFloat.is_infinity x = false)
  /\ snd (nan_inf_check stdout t t_name) =
     (match fst (nan_inf_check stdout t t_name) with
      | Ok _ => stdout
      | Raise _ => stdout ++ [(tensor_str t ++ " " ++ t_name ++ newline)%string]
      end)
  /\ (any_isnan t = true ->
      fst (nan_inf_check stdout t t_name) =
      Raise (ValueError ("NaNs in tensor " ++ tensor_str t)%string)).
Proof.
  unfold nan_inf_check, nan_check, inf_check.
  destruct (any_isnan t) eqn:En; simpl.
  - split; [|split; reflexivity]. split; [discriminate|].
    intros H. apply any_isnan_true in En as [x [Hin Hx]].
    destruct (H x Hin) as [Hn _]. congruence.
  - destruct (any_isinf t) eqn:Ei; simpl.
    + split; [|split; [reflexivity|discriminate]]. split; [discriminate|].
      intros H.
      assert (any_isinf t = false) by (apply any_isinf_false; intros; now apply H).
      congruence.
    + split; [|split; [reflexivity|discriminate]]. split; [|reflexivity].
      intros _ x Hin. split.
      * now apply (proj1 (any_isnan_false t)).
      * now apply (proj1 (any_isinf_false t)).
Qed.

End MoreChecks.

(** A rendering that does not look at the elements. *)
Definition render_opaque (t : tensor) : string := "tensor(...)".

Example nan_inf_check_nan_first :
  nan_inf_check render_opaque [] [infinity; nan] "grad" =
  (Raise (ValueError "NaNs in tensor tensor(...)"),
   [("tensor(...) grad" ++ newline)%string]).
Proof. reflexivity. Qed.

Example nan_inf_check_negative_infinity :
  fst (nan_inf_check render_opaque [] [1%float; neg_infinity] "grad") =
  Raise (ValueError "Infs in tensor tensor(...)").
Proof. reflexivity. Qed.

End Utils.

(** * model.py *)

Module Model.

Open Scope Z_scope.

(** A [LongTensor] of shape [[batch_size, seq_len]]: [width] is the size of
    the last dimension and every row has that many tokens. *)
Record LongTensor2 : Type := mkT2 { width : nat; rows : list (list Z) }.

Definition batch_size (t : LongTensor2) : nat := length (rows t).

Definition wf (t : LongTensor2) : Prop :=
  Forall (fun r => length r = width t) (rows t).

(** A position index or [torch.inf]. *)
Inductive ext : Type := Fin (n : nat) | Inf.

Definition ext_min (a b : ext) : ext :=
  match a, b with
  | Fin x, Fin y => Fin (Nat.min x y)
  | Fin x, Inf => Fin x
  | Inf, b' => b'
  end.

(** [i > v] for an index [i] and a minimum [v] that may be infinite. *)
Definition ext_ltb (v : ext) (i : nat) : bool :=
  match v with
  | Fin m => (m <? i)%nat
  | Inf => false
  end.

(** [.min(dim=-1)[0]] of one row. *)
Definition min_last (vals : list ext) : ext := fold_right ext_min Inf vals.

Section Generation.

(** [self.padding_idx] *)
Variable padding_idx : Z.

(** ** [pad_generation_sequence], one row of the last dimension at a time *)

(** [torch.where(lengths, lengths * a, torch.ones_like(lengths) * torch.inf)] *)
Definition where_index (p : bool * nat) : ext :=
  let '(b, i) := p in
  if b then Fin (Nat.b2n b * i) else Inf.

Definition pad_row (target_eos : Z) (row : list Z) : list Z :=
  let lengths := map (fun tok => tok =? target_eos) row ++ [true] in
  let a := seq 0 (length lengths) in
  let first := min_last (map where_index (combine lengths a)) in
  let mask := map (ext_ltb first) (removelast a) in
  map (fun p : Z * bool => let '(tok, m) := p in if m then padding_idx else tok)
      (combine row mask).

Definition pad_generation_sequence (tgt_generation : LongTensor2) (target_eos : Z)
  : LongTensor2 :=
  mkT2 (width tgt_generation) (map (pad_row target_eos) (rows tgt_generation)).

(** The same on a tensor of shape [[batch_size, k * k, seq_len]]. *)
Definition pad_generation_sequence3 (tgt_generation : list (list (list Z)))
                                    (target_eos : Z) : list (list (list Z)) :=
  map (map (pad_row target_eos)) tgt_generation.

(** *** What the row computation amounts to *)

(** Keep the row up to and including its first eos, fill the rest. *)
Fixpoint pad_after_eos (target_eos : Z) (row : list Z) : list Z :=
  match row with
  | [] => []
  | tok :: rest =>
      if tok =? target_eos then tok :: repeat padding_idx (length rest)
      else tok :: pad_after_eos target_eos rest
  end.

(** The position of the first eos, or the length of the row. *)
Fixpoint first_eos (target_eos : Z) (row : list Z) : nat :=
  match row with
  | [] => O
  | tok :: rest => if tok =? target_eos then O else S (first_eos target_eos rest)
  end.

Lemma min_from_offset target_eos row k :
  min_last (map where_index
              (combine (map (fun tok => tok =? target_eos) row ++ [true])
                       (seq k (S (length row)))))
  = Fin (k + first_eos target_eos row).
Proof.
  revert k. induction row as [|tok rest IH]; intros k.
  - simpl; f_equal; lia.
  - change (min_last (map where_index
               (combine (map (fun tok => tok =? target_eos) (tok :: rest) ++ [true])
                        (seq k (S (length (tok :: rest)))))))
      with (ext_min (where_index (tok =? target_eos, k))
              (min_last (map where_index
                 (combine (map (fun tok => tok =? target_eos) rest ++ [true])
                          (seq (S k) (S (length rest))))))).
    rewrite IH. unfold where_index. simpl first_eos.
    destruct (tok =? target_eos); simpl; f_equal; lia.
Qed.

Lemma fill_all k m (row : list Z) :
  (m < k)%nat ->
  map (fun p : Z * bool => let '(tok, b) := p in if b then padding_idx else tok)
      (combine row (map (ext_ltb (Fin m)) (seq k (length row))))
  = repeat padding_idx (length row).
Proof.
  revert k. induction row as [|tok rest IH]; intros k Hk; simpl; auto.
  destruct (Nat.ltb_spec m k); [|lia].
  f_equal. apply IH. lia.
Qed.

Lemma fill_from_offset target_eos row k :
  map (fun p : Z * bool => let '(tok, b) := p in if b then padding_idx else tok)
      (combine row (map (ext_ltb (Fin (k + first_eos target_eos row)))
                        (seq k (length row))))
  = pad_after_eos target_eos row.
Proof.
  revert k. induction row as [|tok rest IH]; intros k; simpl; auto.
  destruct (tok =? target_eos) eqn:E.
  - rewrite Nat.add_0_r.
    destruct (Nat.ltb_spec k k); [lia|].
    f_equal. apply fill_all. lia.
  - destruct (Nat.ltb_spec (k + S (first_eos target_eos rest)) k); [lia|].
    f_equal. replace (k + S (first_eos target_eos rest))%nat
      with (S k + first_eos target_eos rest)%nat by lia.
    apply IH.
Qed.

Lemma removelast_seq k n : removelast (seq k (S n)) = seq k n.
Proof.
  rewrite seq_S. apply removelast_last.
Qed.

Lemma pad_row_refines target_eos row :
  pad_row target_eos row = pad_after_eos target_eos row.
Proof.
  unfold pad_row.
  rewrite length_app, length_map. simpl length.
  replace (length row + 1)%nat with (S (length row)) by lia.
  rewrite min_from_offset, removelast_seq.
  apply fill_from_offset.
Qed.

Lemma pad_after_eos_filled target_eos n :
  pad_after_eos target_eos (repeat padding_idx n) = repeat padding_idx n.
Proof.
  induction n as [|n IH]; simpl; auto.
  destruct (padding_idx =? target_eos).
  - now rewrite repeat_length.
  - now rewrite IH.
Qed.

Lemma pad_after_eos_idempotent target_eos row :
  pad_after_eos target_eos (pad_after_eos target_eos row) =
  pad_after_eos target_eos row.
Proof.
  induction row as [|tok rest IH]; simpl; auto.
  destruct (tok =? target_eos) eqn:E; simpl; rewrite E.
  - now rewrite repeat_length.
  - now rewrite IH.
Qed.

Lemma pad_after_eos_no_eos target_eos row :
  ~ In target_eos row -> pad_after_eos target_eos row = row.
Proof.
  induction row as [|tok rest IH]; intros Hno; simpl; auto.
  destruct (Z.eqb_spec tok target_eos) as [->|_].
  - exfalso. apply Hno. now left.
  - f_equal. apply IH. intros H. apply Hno. now right.
Qed.

Lemma pad_after_eos_length target_eos row :
  length (pad_after_eos target_eos row) = length row.
Proof.
  induction row as [|tok rest IH]; simpl; auto.
  destruct (tok =? target_eos); simpl; [now rewrite repeat_length|now rewrite IH].
Qed.

Lemma pad_generation_sequence_width t target_eos :
  width (pad_generation_sequence t target_eos) = width t.
Proof. reflexivity. Qed.

(** C7. Applying [pad_generation_sequence] twice gives what applying it once
    gives, and a tensor none of whose rows holds the eos id comes back
    unchanged. *)
Theorem pad_generation_sequence_idempotent (t : LongTensor2) (target_eos : Z) :
  pad_generation_sequence (pad_generation_sequence t target_eos) target_eos
  = pad_generation_sequence t target_eos
  /\ ((forall row, In row (rows t) -> ~ In target_eos row) ->
      pad_generation_sequence t target_eos = t).
Proof.
  split.
  - unfold pad_generation_sequence. simpl. f_equal.
    rewrite map_map. apply map_ext. intros row.
    now rewrite !pad_row_refines, pad_after_eos_idempotent.
  - intros Hno. destruct t as [w rs]. unfold pad_generation_sequence. simpl in *.
    f_equal. rewrite <- (map_id rs) at 2. apply map_ext_in.
    intros row Hin. rewrite pad_row_refines.
    apply pad_after_eos_no_eos. now apply Hno.
Qed.

(** ** Greedy decoding *)

(** The network, as [greedy_decode] uses it. [encoder_pass src] is
    [self.encoder(self.get_src_embeddings(src), self.create_pad_mask(src))],
    whose value is the memory the decoder attends to. [next_token memory src
    cur] is the body of the loop up to [torch.argmax]: the causal mask, the
    target embeddings and the decoder; its value gives, for row [i], the
    token picked at the last position. Either call can raise: on an id the
    embedding table does not hold, on a sequence longer than the table of
    the positional encoding, on an empty batch. *)
Variable Memory : Type.
Variable encoder_pass : LongTensor2 -> result Memory.
Variable next_token : Memory -> LongTensor2 -> LongTensor2 -> result (nat -> Z).

(** [torch.zeros(_, 1).fill_(v).type_as(src)] on one entry: the id is
    written into a float32 tensor and read back as an integer, so it comes
    back as the nearest float32; a value the library cannot convert raises. *)
Variable fill_and_cast : Z -> result Z.

Definition all_finished (current_generation : LongTensor2) (eos_token : Z)
                        (max_len : Z) : bool :=
  forallb (fun row => existsb (fun tok => tok =? eos_token) row)
          (rows current_generation)
  || (max_len <=? Z.of_nat (width current_generation)).

(** One column, a row for every row of [src], holding what the float32
    column keeps of [target_sos]. *)
Definition initialize_generation_sequence (src : LongTensor2) (target_sos : Z)
  : result LongTensor2 :=
  stored <- fill_and_cast target_sos ;;
  Ok (mkT2 1 (map (fun _ => [stored]) (rows src))).

(** [torch.cat([tgt_generation, next_token], dim=-1)] *)
Definition concatenate_generation_sequence (tgt_generation next : LongTensor2)
  : LongTensor2 :=
  mkT2 (width tgt_generation + width next)
       (map (fun p : list Z * list Z => fst p ++ snd p)
            (combine (rows tgt_generation) (rows next))).

(** The decoder on the sequence so far, then
    [torch.argmax(out[:, -1, :], dim=-1, keepdim=True)] *)
Definition argmax_last (src_embed : Memory) (src cur : LongTensor2)
  : result LongTensor2 :=
  pick <- next_token src_embed src cur ;;
  Ok (mkT2 1 (map (fun i => [pick i]) (seq 0 (batch_size cur)))).

(** The [while] loop of [greedy_decode]; [None] when the fuel runs out. *)
Fixpoint greedy_loop (fuel : nat) (src_embed : Memory) (src : LongTensor2)
                     (target_eos max_len : Z) (cur : LongTensor2)
  : option (result LongTensor2) :=
  if all_finished cur target_eos max_len then Some (Ok cur)
  else
    match fuel with
    | O => None
    | S fuel' =>
        match argmax_last src_embed src cur with
        | Raise e => Some (Raise e)
        | Ok tkn =>
            greedy_loop fuel' src_embed src target_eos max_len
                        (concatenate_generation_sequence cur tkn)
        end
    end.

Definition greedy_decode (fuel : nat) (src : LongTensor2)
                         (target_sos target_eos max_len : Z)
  : option (result LongTensor2) :=
  match initialize_generation_sequence src target_sos with
  | Raise e => Some (Raise e)
  | Ok start =>
      match encoder_pass src with
      | Raise e => Some (Raise e)
      | Ok src_embed =>
          match greedy_loop fuel src_embed src target_eos max_len start with
          | Some (Ok cur) => Some (Ok (pad_generation_sequence cur target_eos))
          | Some (Raise e) => Some (Raise e)
          | None => None
          end
      end
  end.

Lemma greedy_loop_ends fuel src_embed src target_eos max_len cur :
  (Z.to_nat max_len - width cur <= fuel)%nat ->
  greedy_loop fuel src_embed src target_eos max_len cur <> None.
Proof.
  revert cur. induction fuel as [|fuel IH]; intros cur Hfuel; simpl;
    destruct (all_finished cur target_eos max_len) eqn:E; try discriminate;
    unfold all_finished in E; apply orb_false_elim in E as [_ E];
    apply Z.leb_gt in E; [lia|].
  destruct (argmax_last src_embed src cur) as [tkn|e] eqn:Etkn; [|discriminate].
  apply IH. unfold argmax_last in Etkn. bind_inv Etkn as pick Hpick.
  injection Etkn as <-. simpl. lia.
Qed.

Lemma greedy_loop_width fuel src_embed src target_eos max_len cur out :
  greedy_loop fuel src_embed src target_eos max_len cur = Some (Ok out) ->
  (width cur <= width out)%nat
  /\ Z.of_nat (width out) <= Z.max (Z.of_nat (width cur)) max_len.
Proof.
  revert cur. induction fuel as [|fuel IH]; intros cur; simpl;
    destruct (all_finished cur target_eos max_len) eqn:E;
    try discriminate; try (intros [= <-]; split; lia).
  unfold all_finished in E. apply orb_false_elim in E as [_ E].
  apply Z.leb_gt in E.
  destruct (argmax_last src_embed src cur) as [tkn|e] eqn:Etkn; [|discriminate].
  intros H. apply IH in H. unfold argmax_last in Etkn.
  bind_inv Etkn as pick Hpick. injection Etkn as <-. simpl in H. lia.
Qed.

(** C6, as the code has it. A sequence that [greedy_decode] returns has
    length at most [max (1, max_len)]: at most [max_len] when [max_len >= 1]
    and, for smaller values, the length [1] of the sos column. The loop
    ends within [max_len] rounds, by a return or by an exception of the
    network, so the bound is about every run. *)
Theorem greedy_decode_length (fuel : nat) (src : LongTensor2)
                             (target_sos target_eos max_len : Z) :
  (Z.to_nat max_len <= fuel)%nat ->
  greedy_decode fuel src target_sos target_eos max_len <> None
  /\ forall out,
       greedy_decode fuel src target_sos target_eos max_len = Some (Ok out) ->
       Z.of_nat (width out) <= Z.max 1 max_len.
Proof.
  intros Hfuel. unfold greedy_decode, initialize_generation_sequence.
  destruct (fill_and_cast target_sos) as [stored|e]; simpl;
    [|split; [discriminate|intros out; discriminate]].
  destruct (encoder_pass src) as [src_embed|e];
    [|split; [discriminate|intros out; discriminate]].
  pose proof (@greedy_loop_ends fuel src_embed src target_eos max_len
                (mkT2 1 (map (fun _ => [stored]) (rows src)))) as Hends.
  destruct (greedy_loop fuel src_embed src target_eos max_len
              (mkT2 1 (map (fun _ => [stored]) (rows src))))
    as [[cur|e]|] eqn:Eloop.
  - split; [discriminate|]. intros out [= <-].
    apply greedy_loop_width in Eloop. simpl in *. lia.
  - split; [discriminate|intros out; discriminate].
  - exfalso. apply Hends; [simpl; lia|reflexivity].
Qed.

End Generation.

(** ** Further properties of the generation helpers *)

Section GenerationFacts.

Variable padding_idx : Z.
Variable Memory : Type.
Variable encoder_pass : LongTensor2 -> result Memory.
Variable next_token : Memory -> LongTensor2 -> LongTensor2 -> result (nat -> Z).
Variable fill_and_cast : Z -> result Z.

Lemma pad_after_eos_closed target_eos row :
  pad_after_eos padding_idx target_eos row =
  firstn (S (first_eos target_eos row)) row
  ++ repeat padding_idx (length row - S (first_eos target_eos row)).
Proof.
  induction row as [|tok rest IH]; [reflexivity|].
  simpl. destruct (tok =? target_eos).
  - simpl. now rewrite Nat.sub_0_r.
  - simpl in IH. now rewrite IH.
Qed.

(** X7. [pad_generation_sequence] keeps the shape of the tensor, keeps every
    row up to and including its first eos token, and writes the padding id
    at every position after it. *)
Theorem pad_generation_sequence_keeps_prefix (t : LongTensor2) (target_eos : Z) :
  width (pad_generation_sequence padding_idx t target_eos) = width t
  /\ map (@length Z) (rows (pad_generation_sequence padding_idx t target_eos))
     = map (@length Z) (rows t)
  /\ rows (pad_generation_sequence padding_idx t target_eos) =
     map (fun row =>
            firstn (S (first_eos target_eos row)) row
            ++ repeat padding_idx (length row - S (first_eos target_eos row)))
         (rows t).
Proof.
  split; [reflexivity|]. unfold pad_generation_sequence. simpl. split.
  - rewrite map_map. apply map_ext. intros row.
    now rewrite pad_row_refines, pad_after_eos_length.
  - apply map_ext. intros row.
    now rewrite pad_row_refines, pad_after_eos_closed.
Qed.

Lemma pad_after_eos_keeps_eos target_eos row :
  existsb (fun tok => tok =? target_eos) row = true ->
  In target_eos (pad_after_eos padding_idx target_eos row).
Proof.
  induction row as [|tok rest IH]; simpl; [discriminate|].
  destruct (Z.eqb_spec tok target_eos) as [->|Hne]; simpl.
  - intros _. now left.
  - intros H. right. now apply IH.
Qed.

Lemma pad_after_eos_head target_eos row :
  hd_error (pad_after_eos padding_idx target_eos row) = hd_error row.
Proof.
  destruct row as [|tok rest]; [reflexivity|].
  simpl. now destruct (tok =? target_eos).
Qed.

Lemma greedy_loop_exit fuel (src_embed : Memory) src target_eos max_len cur out :
  greedy_loop next_token fuel src_embed src target_eos max_len cur = Some (Ok out) ->
  all_finished out target_eos max_len = true.
Proof.
  revert cur. induction fuel as [|fuel IH]; intros cur; simpl;
    destruct (all_finished cur target_eos max_len) eqn:E;
    try discriminate; try (intros [= <-]; exact E).
  destruct (argmax_last next_token src_embed src cur) as [tkn|e];
    [apply IH|discriminate].
Qed.

(** What a returned sequence comes from: the stored sos id, the encoder's
    memory and the sequence the loop ended on. *)
Lemma greedy_decode_returns fuel src target_sos target_eos max_len out :
  greedy_decode padding_idx encoder_pass next_token fill_and_cast
                fuel src target_sos target_eos max_len = Some (Ok out) ->
  exists stored src_embed cur,
    fill_and_cast target_sos = Ok stored
    /\ encoder_pass src = Ok src_embed
    /\ greedy_loop next_token fuel src_embed src target_eos max_len
                   (mkT2 1 (map (fun _ => [stored]) (rows src))) = Some (Ok cur)
    /\ out = pad_generation_sequence padding_idx cur target_eos.
Proof.
  unfold greedy_decode, initialize_generation_sequence.
  destruct (fill_and_cast target_sos) as [stored|e]; simpl; [|discriminate].
  destruct (encoder_pass src) as [src_embed|e]; [|discriminate].
  destruct (greedy_loop next_token fuel src_embed src target_eos max_len
              (mkT2 1 (map (fun _ => [stored]) (rows src))))
    as [[cur|e]|] eqn:Eloop; try discriminate.
  intros [= <-]. exists stored, src_embed, cur. auto.
Qed.

(** X8. When [greedy_decode] returns a sequence shorter than [max_len], every
    row of it holds the eos token. *)
Theorem greedy_decode_early_stop (fuel : nat) (src : LongTensor2)
                                 (target_sos target_eos max_len : Z)
                                 (out : LongTensor2) :
  greedy_decode padding_idx encoder_pass next_token fill_and_cast
                fuel src target_sos target_eos max_len = Some (Ok out) ->
  Z.of_nat (width out) < max_len ->
  Forall (fun row => In target_eos row) (rows out).
Proof.
  intros H Hlen.
  apply greedy_decode_returns in H
    as [stored [src_embed [cur [_ [_ [E ->]]]]]].
  apply greedy_loop_exit in E.
  unfold all_finished in E. simpl in Hlen.
  apply orb_true_iff in E as [E|E]; [|apply Z.leb_le in E; lia].
  simpl. rewrite Forall_map. apply Forall_forall. intros row Hin.
  rewrite forallb_forall in E. rewrite pad_row_refines.
  now apply pad_after_eos_keeps_eos, E.
Qed.

(** The shape that the loop of [greedy_decode] keeps: a row for every source
    sentence, every row as long as the width says, and the stored sos id at
    the head of every row. *)
Definition generation_shape (batch : nat) (stored_sos : Z) (cur : LongTensor2) : Prop :=
  length (rows cur) = batch
  /\ (1 <= width cur)%nat
  /\ Forall (fun row => length row = width cur /\ hd_error row = Some stored_sos)
            (rows cur).

Lemma concatenate_keeps_shape (src_embed : Memory) src stored_sos cur tkn :
  argmax_last next_token src_embed src cur = Ok tkn ->
  generation_shape (batch_size cur) stored_sos cur ->
  generation_shape (batch_size cur) stored_sos
    (concatenate_generation_sequence cur tkn).
Proof.
  unfold argmax_last. intros Htkn. bind_inv Htkn as pick Hpick.
  injection Htkn as <-.
  intros [Hb [Hw Hrows]]. unfold generation_shape, batch_size in *. simpl.
  split; [|split].
  - now rewrite length_map, length_combine, length_map, length_seq, Nat.min_id.
  - lia.
  - rewrite Forall_map. apply Forall_forall. intros [row tk] Hin. simpl.
    pose proof (in_combine_l _ _ _ _ Hin) as Hrow.
    apply in_combine_r in Hin. apply in_map_iff in Hin as [i [<- _]].
    rewrite Forall_forall in Hrows. destruct (Hrows row Hrow) as [Hl Hh].
    rewrite length_app. simpl. split; [lia|].
    destruct row; [discriminate|exact Hh].
Qed.

Lemma greedy_loop_keeps_shape fuel (src_embed : Memory) src stored_sos
                              target_eos max_len cur out :
  greedy_loop next_token fuel src_embed src target_eos max_len cur = Some (Ok out) ->
  generation_shape (batch_size cur) stored_sos cur ->
  generation_shape (batch_size cur) stored_sos out.
Proof.
  revert cur. induction fuel as [|fuel IH]; intros cur; simpl;
    destruct (all_finished cur target_eos max_len);
    try discriminate; try (intros [= <-]; auto).
  destruct (argmax_last next_token src_embed src cur) as [tkn|e] eqn:Etkn;
    [|discriminate].
  intros H Hshape.
  pose proof (@concatenate_keeps_shape _ _ stored_sos _ _ Etkn Hshape) as Hnext.
  assert (Hb : batch_size (concatenate_generation_sequence cur tkn) = batch_size cur)
    by (destruct Hnext as [Hb _]; exact Hb).
  apply IH in H.
  - now rewrite Hb in H.
  - now rewrite Hb.
Qed.

(** X9. A sequence that [greedy_decode] returns has one row per source
    sentence, all rows of the returned width, each starting with the id
    that [initialize_generation_sequence] stored for the sos token: what
    the float32 column keeps of it. *)
Theorem greedy_decode_shape (fuel : nat) (src : LongTensor2)
                            (target_sos target_eos max_len : Z) (out : LongTensor2) :
  greedy_decode padding_idx encoder_pass next_token fill_and_cast
                fuel src target_sos target_eos max_len = Some (Ok out) ->
  batch_size out = batch_size src
  /\ wf out
  /\ exists stored,
       fill_and_cast target_sos = Ok stored
       /\ Forall (fun row => hd_error row = Some stored) (rows out).
Proof.
  intros H.
  apply greedy_decode_returns in H
    as [stored [src_embed [cur [Hfill [_ [E ->]]]]]].
  apply greedy_loop_keeps_shape with (stored_sos := stored) in E.
  - destruct E as [Hb [_ Hrows]]. unfold batch_size in *. simpl in *.
    rewrite length_map in *. split; [exact Hb|].
    rewrite Forall_forall in Hrows. split.
    + unfold wf. simpl. rewrite Forall_map. apply Forall_forall. intros row Hin.
      rewrite pad_row_refines, pad_after_eos_length. now apply Hrows.
    + exists stored. split; [exact Hfill|].
      rewrite Forall_map. apply Forall_forall. intros row Hin.
      rewrite pad_row_refines, pad_after_eos_head. now apply Hrows.
  - unfold generation_shape, batch_size. simpl. split; [reflexivity|].
    split; [lia|]. rewrite Forall_map. apply Forall_forall. auto.
Qed.

End GenerationFacts.

(** *** Sample networks and conversions *)

(** The nearest float32 of an integer, ties to the even mantissa: integers
    of magnitude up to [2^24] are kept, larger ones keep 24 leading bits. *)
Definition nearest_float32 (v : Z) : Z :=
  let a := Z.abs v in
  let e := Z.log2 a - 23 in
  if e <=? 0 then v
  else
    let q := Z.shiftr a e in
    let r := a - Z.shiftl q e in
    let half := Z.shiftl 1 (e - 1) in
    let q' := if r <? half then q
              else if half <? r then q + 1
              else if Z.even q then q else q + 1 in
    Z.sgn v * Z.shiftl q' e.

Lemma nearest_float32_exact (v : Z) :
  Z.abs v <= 2 ^ 24 -> nearest_float32 v = v.
Proof.
  intros H. unfold nearest_float32.
  destruct (Z.leb_spec (Z.log2 (Z.abs v) - 23) 0) as [|He]; [reflexivity|].
  assert (Ha : Z.abs v = 16777216).
  { assert (Hpos : 0 < Z.abs v).
    { destruct (Z.abs v) eqn:E; simpl in He; lia. }
    assert (Hlo : 2 ^ 24 <= Z.abs v) by (apply Z.log2_le_pow2; lia).
    change (2 ^ 24) with 16777216 in *. lia. }
  rewrite Ha. change (Z.log2 16777216 - 23) with 1. simpl.
  destruct v; simpl in *; lia.
Qed.

(** A conversion that rounds to float32 and refuses magnitudes from
    [2^62] on. *)
Definition float32_column (v : Z) : result Z :=
  if Z.abs v <? 2 ^ 62 then Ok (nearest_float32 v)
  else Raise (RuntimeError "value cannot be converted without overflow").

Example float32_column_small : float32_column 16777216 = Ok 16777216.
Proof. reflexivity. Qed.

Example float32_column_rounds : float32_column 16777217 = Ok 16777216.
Proof. reflexivity. Qed.

(** An encoder that accepts every batch with at least one row. *)
Definition sample_encoder (src : LongTensor2) : result unit :=
  if (batch_size src =? 0)%nat
  then Raise (RuntimeError "cannot reshape tensor of 0 elements")
  else Ok tt.

(** A decoder that predicts the eos token [1] once two tokens are there. *)
Definition ends_after_two (src_embed : unit) (src cur : LongTensor2)
  : result (nat -> Z) :=
  Ok (fun i => if (width cur =? 2)%nat then 1 else 7).

(** A decoder that always predicts token [7]. *)
Definition always_seven (src_embed : unit) (src cur : LongTensor2)
  : result (nat -> Z) :=
  Ok (fun i => 7).

(** A decoder that always predicts token [7] and whose positional table has
    three rows. *)
Definition table_of_three (src_embed : unit) (src cur : LongTensor2)
  : result (nat -> Z) :=
  if (3 <? width cur)%nat
  then Raise (RuntimeError "The size of tensor a must match the size of tensor b")
  else Ok (fun i => 7).

Lemma greedy_decode_early_stop_witness :
  greedy_decode 2 sample_encoder ends_after_two float32_column
                10 (mkT2 2 [[5; 6]; [6; 5]]) 0 1 10
    = Some (Ok (mkT2 3 [[0; 7; 1]; [0; 7; 1]]))
  /\ Z.of_nat (width (mkT2 3 [[0; 7; 1]; [0; 7; 1]])) < 10
  /\ Forall (fun row => In 1 row) (rows (mkT2 3 [[0; 7; 1]; [0; 7; 1]])).
Proof.
  assert (H : greedy_decode 2 sample_encoder ends_after_two float32_column
                            10 (mkT2 2 [[5; 6]; [6; 5]]) 0 1 10
              = Some (Ok (mkT2 3 [[0; 7; 1]; [0; 7; 1]]))) by reflexivity.
  assert (Hlt : Z.of_nat (width (mkT2 3 [[0; 7; 1]; [0; 7; 1]])) < 10)
    by (simpl; lia).
  split; [exact H|]. split; [exact Hlt|].
  exact (@greedy_decode_early_stop 2 unit sample_encoder ends_after_two
           float32_column 10 (mkT2 2 [[5; 6]; [6; 5]])
           0 1 10 (mkT2 3 [[0; 7; 1]; [0; 7; 1]]) H Hlt).
Defined.

Lemma greedy_decode_shape_witness :
  greedy_decode 2 sample_encoder ends_after_two float32_column
                10 (mkT2 2 [[5; 6]; [6; 5]]) 16777217 1 10
    = Some (Ok (mkT2 3 [[16777216; 7; 1]; [16777216; 7; 1]]))
  /\ batch_size (mkT2 3 [[16777216; 7; 1]; [16777216; 7; 1]])
     = batch_size (mkT2 2 [[5; 6]; [6; 5]])
  /\ wf (mkT2 3 [[16777216; 7; 1]; [16777216; 7; 1]])
  /\ exists stored,
       float32_column 16777217 = Ok stored
       /\ Forall (fun row => hd_error row = Some stored)
                 (rows (mkT2 3 [[16777216; 7; 1]; [16777216; 7; 1]])).
Proof.
  assert (H : greedy_decode 2 sample_encoder ends_after_two float32_column
                            10 (mkT2 2 [[5; 6]; [6; 5]]) 16777217 1 10
              = Some (Ok (mkT2 3 [[16777216; 7; 1]; [16777216; 7; 1]])))
    by reflexivity.
  split; [exact H|].
  exact (@greedy_decode_shape 2 unit sample_encoder ends_after_two
           float32_column 10 (mkT2 2 [[5; 6]; [6; 5]])
           16777217 1 10 (mkT2 3 [[16777216; 7; 1]; [16777216; 7; 1]]) H).
Defined.

(** ** Masks *)

(** [enumerate] over a row or over the rows. *)
Definition indexed {A : Type} (l : list A) : list (nat * A) :=
  combine (seq 0 (length l)) l.

(** [torch.ones_like(M)] of a boolean matrix. *)
Definition ones_like (M : list (list bool)) : list (list bool) :=
  map (map (fun _ => true)) M.

(** [torch.triu(M, diagonal=1)]: the entries with [j - i >= 1] are kept,
    the others become [False]. *)
Definition triu1 (M : list (list bool)) : list (list bool) :=
  map (fun ir : nat * list bool =>
         map (fun jx : nat * bool => if (fst ir + 1 <=? fst jx)%nat then snd jx else false)
             (indexed (snd ir)))
      (indexed M).

(** The mask of shape [[1, seq_len, seq_len]]. *)
Definition create_causal_mask (tokens : LongTensor2) : list (list (list bool)) :=
  let length := width tokens in
  let M := repeat (repeat false length) length in
  let M := triu1 (ones_like M) in
  [M].

(** The mask of shape [[batch_size, 1, seq_len]]. *)
Definition create_pad_mask (padding_idx : Z) (tokens : LongTensor2)
  : list (list (list bool)) :=
  map (fun row => [map (fun tok => tok =? padding_idx) row]) (rows tokens).

Lemma indexed_nth {A : Type} (l : list A) (i : nat) (d : A) :
  (i < length l)%nat -> nth i (indexed l) (O, d) = (i, nth i l d).
Proof.
  intros H. unfold indexed. rewrite combine_nth by apply length_seq.
  now rewrite seq_nth.
Qed.

Lemma indexed_length {A : Type} (l : list A) : length (indexed l) = length l.
Proof.
  unfold indexed. rewrite length_combine, length_seq. apply Nat.min_id.
Qed.

Lemma nth_map_in {A B : Type} (f : A -> B) (l : list A) (i : nat) (d : A) (e : B) :
  (i < length l)%nat -> nth i (map f l) e = f (nth i l d).
Proof.
  intros H. rewrite (nth_indep _ e (f d)) by now rewrite length_map.
  apply map_nth.
Qed.

Lemma causal_mask_matrix (tokens : LongTensor2) :
  exists M,
    create_causal_mask tokens = [M]
    /\ length M = width tokens
    /\ Forall (fun row => length row = width tokens) M
    /\ forall i j, (i < width tokens)%nat -> (j < width tokens)%nat ->
         nth j (nth i M []) false = (i <? j)%nat.
Proof.
  unfold create_causal_mask. eexists. split; [reflexivity|].
  set (L := width tokens). unfold triu1, ones_like.
  repeat split.
  - now rewrite length_map, indexed_length, length_map, repeat_length.
  - rewrite Forall_map. apply Forall_forall. intros [i row] Hin. simpl.
    rewrite length_map, indexed_length.
    unfold indexed in Hin. apply in_combine_r in Hin.
    apply in_map_iff in Hin as [r [<- Hr]]. apply repeat_spec in Hr. subst r.
    now rewrite length_map, repeat_length.
  - intros i j Hi Hj.
    assert (Hrows : length (map (map (fun _ : bool => true))
                              (repeat (repeat false L) L)) = L)
      by now rewrite length_map, repeat_length.
    rewrite (nth_map_in _ _ (O, [])) by now rewrite indexed_length, Hrows.
    rewrite indexed_nth by now rewrite Hrows. simpl.
    rewrite (nth_map_in _ _ []) by now rewrite repeat_length.
    rewrite nth_repeat_lt by assumption.
    assert (Hrow : length (map (fun _ : bool => true) (repeat false L)) = L)
      by now rewrite length_map, repeat_length.
    rewrite (nth_map_in _ _ (O, false)) by now rewrite indexed_length, Hrow.
    rewrite indexed_nth by now rewrite Hrow. simpl.
    rewrite (nth_map_in _ _ false) by now rewrite repeat_length.
    destruct (Nat.leb_spec (i + 1) j), (Nat.ltb_spec i j); auto; lia.
Qed.

(** X10. [create_causal_mask] returns one [seq_len] by [seq_len] matrix whose
    entry [(i, j)] is [True] exactly when [j > i]: a position is barred from
    the later ones and from nothing else. *)
Theorem create_causal_mask_entries (tokens : LongTensor2) :
  exists M,
    create_causal_mask tokens = [M]
    /\ length M = width tokens
    /\ Forall (fun row => length row = width tokens) M
    /\ forall i j, (i < width tokens)%nat -> (j < width tokens)%nat ->
         nth j (nth i M []) false = (i <? j)%nat.
Proof.
  apply causal_mask_matrix.
Qed.

Example create_causal_mask_3 :
  create_causal_mask (mkT2 3 [[5; 6; 7]]) =
  [[[false; true; true]; [false; false; true]; [false; false; false]]].
Proof. reflexivity. Qed.

(** [torch.logical_or(casual_tgt, pad_tgt)] in [forward]: the causal mask of
    shape [[1, L, L]] and the padding mask of shape [[batch_size, 1, L]]
    broadcast to [[batch_size, L, L]]. *)
Definition target_mask (padding_idx : Z) (tgt : LongTensor2) : list (list (list bool)) :=
  let casual_tgt := create_causal_mask tgt in
  let pad_tgt := create_pad_mask padding_idx tgt in
  map (fun pad_b : list (list bool) =>
         map (fun causal_row : list bool =>
                map (fun p : bool * bool => fst p || snd p)
                    (combine causal_row (hd [] pad_b)))
             (hd [] casual_tgt))
      pad_tgt.

(** X11. In the decoder mask that [forward] builds, position [i] of sentence [b]
    is barred from position [j] exactly when [j] comes later or holds the
    padding id. *)
Theorem target_mask_entries (padding_idx : Z) (tgt : LongTensor2) (b i j : nat) :
  wf tgt ->
  (b < batch_size tgt)%nat -> (i < width tgt)%nat -> (j < width tgt)%nat ->
  nth j (nth i (nth b (target_mask padding_idx tgt) []) []) false
  = (i <? j)%nat || (nth j (nth b (rows tgt) []) 0 =? padding_idx).
Proof.
  intros Hwf Hb Hi Hj.
  destruct (causal_mask_matrix tgt) as [M [HM [HlenM [HrowsM Hent]]]].
  unfold target_mask. rewrite HM. cbn [hd].
  unfold create_pad_mask. rewrite map_map.
  rewrite (nth_map_in _ _ []) by exact Hb. cbn [hd].
  rewrite (nth_map_in _ _ []) by now rewrite HlenM.
  assert (HrowL : length (nth b (rows tgt) []) = width tgt).
  { unfold wf in Hwf. rewrite Forall_forall in Hwf. apply Hwf, nth_In, Hb. }
  assert (HMi : length (nth i M []) = width tgt).
  { rewrite Forall_forall in HrowsM. apply HrowsM, nth_In. now rewrite HlenM. }
  rewrite (nth_map_in _ _ (false, false))
    by (rewrite length_combine, length_map, HMi, HrowL; lia).
  rewrite combine_nth by now rewrite length_map, HMi, HrowL.
  simpl. rewrite Hent by assumption.
  now rewrite (nth_map_in _ _ 0) by now rewrite HrowL.
Qed.

Lemma target_mask_entries_witness :
  wf (mkT2 3 [[0; 7; 2]])
  /\ nth 2 (nth 0 (nth 0 (target_mask 2 (mkT2 3 [[0; 7; 2]])) []) []) false
     = (0 <? 2)%nat || (nth 2 (nth 0 (rows (mkT2 3 [[0; 7; 2]])) []) 0 =? 2).
Proof.
  assert (H : wf (mkT2 3 [[0; 7; 2]])) by (repeat constructor).
  split; [exact H|].
  apply (@target_mask_entries 2 (mkT2 3 [[0; 7; 2]]) 0 0 2 H); unfold batch_size; simpl; lia.
Defined.

(** ** Beam search *)

Section BeamSearch.

Variable padding_idx : Z.

(** The network, as beam search uses it: the normalized log-probabilities
    over the vocabulary at the last position of one prefix, for one source
    sentence. The rows of a decoder batch do not influence one another. *)
Variable log_softmax_last : list Z -> list Z -> list float.

(** [torch.topk] on one row, values with their indices, and [sum(dim=-1)]
    of one row. *)
Variable topk : list float -> nat -> list (float * nat).
Variable sum_last : list float -> float.

(** The float32 column of [initialize_generation_sequence], as above. *)
Variable fill_and_cast : Z -> result Z.

Definition torch_topk (xs : list float) (k : nat) : result (list (float * nat)) :=
  if (length xs <? k)%nat then Raise (RuntimeError "selected index k out of range")
  else Ok (topk xs k).

(** [xs[..., i] = v] with Python's reading of a negative index. *)
Definition set_at (xs : list float) (i : Z) (v : float) : result (list float) :=
  let n := Z.of_nat (length xs) in
  if (0 <=? i) && (i <? n) then Ok (list_set xs (Z.to_nat i) v)
  else if (- n <=? i) && (i <? 0) then Ok (list_set xs (Z.to_nat (n + i)) v)
  else Raise IndexError.

(** The beams of one sentence: [k] prefixes and the log-probabilities of
    their tokens. The code holds them as two tensors of shape
    [[batch_size * k, cur_len]]. *)
Definition beams : Type := (list (list Z) * list (list float))%type.

(** Steps 2 to 6 of [initialize_beams_for_beam_search], for one sentence of
    the batch and its row of the sos column. *)
Definition initialize_beams (src_row seq_row : list Z) (target_eos : Z) (k : nat)
  : result beams :=
  let log_probs := log_softmax_last src_row seq_row in
  log_probs' <- set_at log_probs target_eos neg_infinity ;;
  top <- torch_topk log_probs' k ;;
  Ok (map (fun p : float * nat => seq_row ++ [Z.of_nat (snd p)]) top,
      map (fun p : float * nat => [0%float; fst p]) top).

(** The two reshapes of [expand_encoder_for_beam_search], to
    [[bs * k, -1, d_model]] for the encoder's output and to
    [[bs * k, -1, src_seq_len]] for its mask: the library refuses to infer
    the [-1] when the sizes given multiply to zero, which is the case for
    the first when [bs * k = 0] and for the second when there is no source
    position. The value repeats every sentence [k] times. *)
Definition expand_encoder_for_beam_search (src : list (list Z)) (k : nat)
  : result (list (list Z)) :=
  let bs := length src in
  if (bs * k =? 0)%nat || (length (hd [] src) =? 0)%nat then
    Raise (RuntimeError "cannot reshape tensor of 0 elements: the unspecified dimension size -1 is ambiguous")
  else Ok (concat (map (fun src_row => repeat src_row k) src)).

Definition initialize_beams_for_beam_search (src : list (list Z))
                                            (target_sos target_eos : Z) (k : nat)
  : result (list beams) :=
  seq <- initialize_generation_sequence fill_and_cast
           (mkT2 (length (hd [] src)) src) target_sos ;;
  init <- mapM (fun p : list Z * list Z =>
                  initialize_beams (fst p) (snd p) target_eos k)
               (combine src (rows seq)) ;;
  _ <- expand_encoder_for_beam_search src k ;;
  Ok init.

(** One decoder step for the [k] beams of one sentence and the expansion of
    every beam by its [expan] best next tokens: candidate [r * expan + e]
    is beam [r] followed by its [e]-th prediction. *)
Definition expand_beams (src_row : list Z) (b : beams) (expan : nat) : result beams :=
  cands <- mapM (fun p : list Z * list float =>
                   top <- torch_topk (log_softmax_last src_row (fst p)) expan ;;
                   Ok (map (fun q : float * nat =>
                              (fst p ++ [Z.of_nat (snd q)], snd p ++ [fst q])) top))
                (combine (fst b) (snd b)) ;;
  Ok (map fst (concat cands), map snd (concat cands)).

(** [score_sequence_for_beam_search] on the rows of one sentence. *)
Definition score_sequence_for_beam_search (tgt_generation : list (list Z))
                                          (seq_log_probs : list (list float))
  : list (list float) * list float :=
  let tgt_padded := map (pad_row padding_idx padding_idx) tgt_generation in
  let log_probs :=
    map (fun p : list Z * list float =>
           map (fun q : Z * float =>
                  if negb (fst q =? padding_idx) then snd q else 0%float)
               (combine (fst p) (snd p)))
        (combine tgt_padded seq_log_probs) in
  (log_probs, map sum_last log_probs).

(** [torch.topk(scores, expan)] followed by the gathers of the two tensors. *)
Definition select_top (tgt_generation : list (list Z)) (seq_log_probs : list (list float))
                      (scores : list float) (expan : nat)
  : result (beams * list float) :=
  top <- torch_topk scores expan ;;
  tgt <- mapM (fun p : float * nat => item tgt_generation (snd p)) top ;;
  lps <- mapM (fun p : float * nat => item seq_log_probs (snd p)) top ;;
  Ok ((tgt, lps), map fst top).

Definition has_eos (target_eos : Z) (row : list Z) : bool :=
  existsb (fun tok => tok =? target_eos) row.

(** The finished candidates of one sentence, sequences and scores, and the
    indices of the alive ones. *)
Record split_state : Type := mkSplit {
  fin_sequences : list (list Z);
  fin_scores : list float;
  alive_idxs_b : list nat
}.

(** [for beam in range(expan)]: a candidate that holds the eos token joins
    the finished ones, another one is alive. *)
Fixpoint split_loop (target_eos : Z) (tgt_generation : list (list Z))
                    (scores : list float) (beam_range : list nat) (st : split_state)
  : result split_state :=
  match beam_range with
  | [] => Ok st
  | beam :: rest =>
      row <- item tgt_generation beam ;;
      if has_eos target_eos row then
        sc <- item scores beam ;;
        split_loop target_eos tgt_generation scores rest
                   (mkSplit (fin_sequences st ++ [row]) (fin_scores st ++ [sc])
                            (alive_idxs_b st))
      else
        split_loop target_eos tgt_generation scores rest
                   (mkSplit (fin_sequences st) (fin_scores st)
                            (alive_idxs_b st ++ [beam]))
  end.

(** [sorted(z, key=lambda x: x[0], reverse=True)]: descending and stable. *)
Fixpoint insert_desc (x : float * list Z) (l : list (float * list Z))
  : list (float * list Z) :=
  match l with
  | [] => [x]
  | y :: rest =>
      if PrimFloat.ltb (fst y) (fst x) then x :: l else y :: insert_desc x rest
  end.

Definition sorted_desc (z : list (float * list Z)) : list (float * list Z) :=
  fold_left (fun acc x => insert_desc x acc) z [].

(** [if len(finished) > 1:] sort the finished candidates and keep [k]. *)
Definition sort_finished (k : nat) (st : split_state) : split_state :=
  if (1 <? length (fin_sequences st))%nat then
    let z := sorted_desc (combine (fin_scores st) (fin_sequences st)) in
    mkSplit (map snd (firstn k z)) (map fst (firstn k z)) (alive_idxs_b st)
  else st.

(** [max] and [min] of a list of floats. *)
Definition py_max (l : list float) : result float :=
  match l with
  | [] => Raise (ValueError "max() arg is an empty sequence")
  | x :: rest => Ok (fold_left (fun m y => if PrimFloat.ltb m y then y else m) rest x)
  end.

Definition py_min (l : list float) : result float :=
  match l with
  | [] => Raise (ValueError "min() arg is an empty sequence")
  | x :: rest => Ok (fold_left (fun m y => if PrimFloat.ltb y m then y else m) rest x)
  end.

(** The stopping heuristic: the [if]/[elif] that compares the finished
    scores with the score of the first alive candidate. *)
Definition stop_test (k : nat) (st : split_state) (scores : list float) : result bool :=
  if (0 <? length (fin_sequences st))%nat then
    best_finished <- py_max (fin_scores st) ;;
    top_alive <- item (alive_idxs_b st) 0 ;;
    sc <- item scores top_alive ;;
    Ok (PrimFloat.ltb sc best_finished)
  else if (length (fin_sequences st) =? k)%nat then
    worst_finished <- py_min (fin_scores st) ;;
    top_alive <- item (alive_idxs_b st) 0 ;;
    sc <- item scores top_alive ;;
    Ok (PrimFloat.ltb sc worst_finished)
  else Ok false.

(** Keeping the alive candidates [alive[:k]]; the reshape back to [k] rows
    per sentence needs exactly [k] of them. *)
Definition gather_alive (k : nat) (b : beams) (alive : list nat) : result beams :=
  let alive_k := firstn k alive in
  if negb (length alive_k =? k)%nat
  then Raise (RuntimeError "shape is invalid for input size")
  else
    tgt <- mapM (fun i => item (fst b) i) alive_k ;;
    lps <- mapM (fun i => item (snd b) i) alive_k ;;
    Ok (tgt, lps).

(** [finalize_beams_for_beam_search] *)
Definition finalize_beams_for_beam_search (top_beams : list (list Z))
  : result LongTensor2 :=
  match top_beams with
  | [] => Raise (ValueError "max() arg is an empty sequence")
  | b :: rest =>
      let max_len := fold_left (fun m r => Nat.max m (length r)) rest (length b) in
      Ok (mkT2 max_len
               (map (fun r => r ++ repeat padding_idx (max_len - length r)) top_beams))
  end.

(** *** [beam_search_decode_slow] *)

(** What one pass of the inner [for] loop leaves behind. *)
Record slow_state : Type := mkSlow {
  tgt_generation_b : list (list Z);
  seq_log_probs_b : list (list float);
  finished_sequences_b : list (list Z);
  finished_scores_b : list float
}.

(** The body of [for i in range(1, max_len)]; the boolean tells that the
    body left through [break]. [repeat_and_reshape_for_beam_search] lays
    the beams out as [k] rows, which needs [k] of them. *)
Definition slow_body (src_row : list Z) (target_eos : Z) (k : nat) (st : slow_state)
  : result (slow_state * bool) :=
  let expan := (2 * k)%nat in
  if negb (length (tgt_generation_b st) =? k)%nat
  then Raise (RuntimeError "shape is invalid for input size")
  else
    cand <- expand_beams src_row (tgt_generation_b st, seq_log_probs_b st) expan ;;
    let tgt1 := map (pad_row padding_idx target_eos) (fst cand) in
    let '(lps1, scores1) := score_sequence_for_beam_search tgt1 (snd cand) in
    sel <- select_top tgt1 lps1 scores1 expan ;;
    let '((tgt2, lps2), scores2) := sel in
    sp <- split_loop target_eos tgt2 scores2 (seq 0 expan)
                     (mkSplit (finished_sequences_b st) (finished_scores_b st) []) ;;
    let sp1 := sort_finished k sp in
    stop <- stop_test k sp1 scores2 ;;
    if stop then
      Ok (mkSlow tgt2 lps2 (fin_sequences sp1) (fin_scores sp1), true)
    else
      let alive_k := firstn k (alive_idxs_b sp1) in
      tgt3 <- mapM (fun i => item tgt2 i) alive_k ;;
      lps3 <- mapM (fun i => item lps2 i) alive_k ;;
      Ok (mkSlow tgt3 lps3 (fin_sequences sp1) (fin_scores sp1), false).

Fixpoint slow_loop (src_row : list Z) (target_eos : Z) (k : nat)
                   (i_range : list nat) (st : slow_state) : result slow_state :=
  match i_range with
  | [] => Ok st
  | _ :: rest =>
      r <- slow_body src_row target_eos k st ;;
      if snd r then Ok (fst r)
      else slow_loop src_row target_eos k rest (fst r)
  end.

(** [range(1, max_len)] *)
Definition range_from_1 (max_len : Z) : list nat := seq 1 (Z.to_nat (max_len - 1)).

(** One pass of the outer loop: the best beam of one sentence. *)
Definition slow_example (target_eos max_len : Z) (k : nat) (src_row : list Z) (b : beams)
  : result (list Z) :=
  st <- slow_loop src_row target_eos k (range_from_1 max_len)
                  (mkSlow (fst b) (snd b) [] []) ;;
  fin <- (if (length (finished_sequences_b st) =? 0)%nat then
            top <- item (tgt_generation_b st) 0 ;;
            Ok (finished_sequences_b st ++ [top])
          else Ok (finished_sequences_b st)) ;;
  item fin 0.

Definition beam_search_decode_slow (src : list (list Z)) (target_sos target_eos max_len : Z)
                                   (k : nat) : result LongTensor2 :=
  init <- initialize_beams_for_beam_search src target_sos target_eos k ;;
  top_beams <- mapM (fun p : list Z * beams => slow_example target_eos max_len k (fst p) (snd p))
                    (combine src init) ;;
  finalize_beams_for_beam_search top_beams.

(** *** [beam_search_decode] *)

(** The variables of the [while] loop. The code keeps the beams of the
    sentences still decoded in tensors of shape [[cur_batch_size * k, _]];
    here they are a list with one entry per such sentence. *)
Record fast_state : Type := mkFast {
  cur_beams : list beams;
  cur_len : nat;
  cur_src : list (list Z);
  cur_sentence_ids : list nat;
  finished_sequences : list (list (list Z));
  finished_scores : list (list float)
}.

(** What [for b in range(cur_batch_size)] accumulates. *)
Record fast_acc : Type := mkAcc {
  acc_finished_sequences : list (list (list Z));
  acc_finished_scores : list (list float);
  acc_alive_idxs : list (list nat);
  acc_has_not_finished_idxs : list nat
}.

Fixpoint fast_split (target_eos : Z) (k : nat)
                    (todo : list (nat * (nat * (beams * list float))))
                    (acc : fast_acc) : result fast_acc :=
  match todo with
  | [] => Ok acc
  | (b, (original_b, (sel, scores))) :: rest =>
      fs <- item (acc_finished_sequences acc) original_b ;;
      fsc <- item (acc_finished_scores acc) original_b ;;
      sp <- split_loop target_eos (fst sel) scores (seq 0 (2 * k)) (mkSplit fs fsc []) ;;
      let sp1 := sort_finished k sp in
      has_finished <- stop_test k sp1 scores ;;
      let fseq := list_set (acc_finished_sequences acc) original_b (fin_sequences sp1) in
      let fscs := list_set (acc_finished_scores acc) original_b (fin_scores sp1) in
      if has_finished then
        fast_split target_eos k rest
                   (mkAcc fseq fscs (acc_alive_idxs acc) (acc_has_not_finished_idxs acc))
      else
        fast_split target_eos k rest
                   (mkAcc fseq fscs
                          (acc_alive_idxs acc ++ [firstn k (alive_idxs_b sp1)])
                          (acc_has_not_finished_idxs acc ++ [b]))
  end.

(** The body of the [while] loop; the boolean tells that it left through
    [break]. *)
Definition fast_body (target_eos : Z) (k : nat) (st : fast_state)
  : result (fast_state * bool) :=
  let expan := (2 * k)%nat in
  sels <- mapM (fun p : list Z * beams =>
                  cand <- expand_beams (fst p) (snd p) expan ;;
                  let '(lps1, scores1) :=
                    score_sequence_for_beam_search (fst cand) (snd cand) in
                  select_top (fst cand) lps1 scores1 expan)
               (combine (cur_src st) (cur_beams st)) ;;
  acc <- fast_split target_eos k
                    (combine (seq 0 (length (cur_beams st)))
                             (combine (cur_sentence_ids st) sels))
                    (mkAcc (finished_sequences st) (finished_scores st) [] []) ;;
  if (length (acc_has_not_finished_idxs acc) =? 0)%nat then
    Ok (mkFast (map fst sels) (S (cur_len st)) (cur_src st) (cur_sentence_ids st)
               (acc_finished_sequences acc) (acc_finished_scores acc), true)
  else
    new_beams <- mapM (fun p : nat * list nat =>
                         sel <- item sels (fst p) ;;
                         gather_alive k (fst sel) (snd p))
                      (combine (acc_has_not_finished_idxs acc) (acc_alive_idxs acc)) ;;
    new_src <- mapM (fun b => item (cur_src st) b) (acc_has_not_finished_idxs acc) ;;
    new_ids <- mapM (fun b => item (cur_sentence_ids st) b)
                    (acc_has_not_finished_idxs acc) ;;
    Ok (mkFast new_beams (S (cur_len st)) new_src new_ids
               (acc_finished_sequences acc) (acc_finished_scores acc), false).

(** [all(is_finished)] for [is_finished = [False] * batch_size], which the
    loop never writes to. *)
Definition all_is_finished (batch : nat) : bool := forallb (fun b => b) (repeat false batch).

(** [while not all(is_finished) and tgt_generation.shape[-1] < max_len];
    [None] when the fuel runs out. *)
Fixpoint fast_loop (fuel : nat) (batch : nat) (target_eos max_len : Z) (k : nat)
                   (st : fast_state) : option (result fast_state) :=
  if negb (all_is_finished batch) && (Z.of_nat (cur_len st) <? max_len) then
    match fuel with
    | O => None
    | S fuel' =>
        match fast_body target_eos k st with
        | Raise e => Some (Raise e)
        | Ok (st', true) => Some (Ok st')
        | Ok (st', false) => fast_loop fuel' batch target_eos max_len k st'
        end
    end
  else Some (Ok st).

(** [if not all(is_finished)]: a sentence still decoded with no finished
    candidate takes its first alive beam. After a [break] every sentence
    still decoded has a finished candidate, so the rows of the reshaped
    tensor are not read. *)
Fixpoint take_top_alive (todo : list (nat * beams))
                        (fin : list (list (list Z))) : result (list (list (list Z))) :=
  match todo with
  | [] => Ok fin
  | (original_b, b) :: rest =>
      fs <- item fin original_b ;;
      if (length fs =? 0)%nat then
        g <- item (fst b) 0 ;;
        take_top_alive rest (list_set fin original_b (fs ++ [g]))
      else take_top_alive rest fin
  end.

Definition beam_search_decode (fuel : nat) (src : list (list Z))
                              (target_sos target_eos max_len : Z) (k : nat)
  : option (result LongTensor2) :=
  let batch := length src in
  match initialize_beams_for_beam_search src target_sos target_eos k with
  | Raise e => Some (Raise e)
  | Ok init =>
      let st0 := mkFast init 2 src (seq 0 batch) (repeat [] batch) (repeat [] batch) in
      match fast_loop fuel batch target_eos max_len k st0 with
      | None => None
      | Some (Raise e) => Some (Raise e)
      | Some (Ok st) =>
          Some (fin <- (if negb (all_is_finished batch) then
                          take_top_alive (combine (cur_sentence_ids st) (cur_beams st))
                                         (finished_sequences st)
                        else Ok (finished_sequences st)) ;;
                top_beams <- mapM (fun x => item x 0) fin ;;
                finalize_beams_for_beam_search top_beams)
      end
  end.

(** *** The lengths of the sequences the two versions return *)

Definition all_of_length (n : nat) (rows : list (list Z)) : Prop :=
  Forall (fun r => length r = n) rows.

Lemma initialize_beams_length src_row stored target_eos k b :
  initialize_beams src_row [stored] target_eos k = Ok b ->
  all_of_length 2 (fst b).
Proof.
  unfold initialize_beams. intros H.
  bind_inv H as lp Hlp. bind_inv H as top Htop.
  injection H as <-. simpl. unfold all_of_length.
  rewrite Forall_map. apply Forall_forall. reflexivity.
Qed.

(** What a returned initialization went through: the sos id was stored,
    every sentence got its beams, and the batch, the beam width and the
    source length are not zero. *)
Lemma initialize_beams_for_beam_search_returns src target_sos target_eos k init :
  initialize_beams_for_beam_search src target_sos target_eos k = Ok init ->
  exists stored,
    fill_and_cast target_sos = Ok stored
    /\ mapM (fun src_row => initialize_beams src_row [stored] target_eos k) src
       = Ok init
    /\ src <> [] /\ k <> 0%nat.
Proof.
  unfold initialize_beams_for_beam_search, initialize_generation_sequence.
  intros H. bind_inv H as seq Hseq. bind_inv Hseq as stored Hstored.
  injection Hseq as <-. bind_inv H as init' Hinit. bind_inv H as ex Hex.
  injection H as <-. exists stored. split; [exact Hstored|].
  cbn [rows] in Hinit. split.
  - clear Hex. revert init' Hinit.
    induction src as [|src_row src IH]; intros init' Hinit; [exact Hinit|].
    cbn [map combine mapM fst snd] in *.
    destruct (initialize_beams src_row [stored] target_eos k) as [b|e];
      [|exact Hinit].
    cbn [bind] in *. bind_inv Hinit as rest Hrest.
    rewrite (IH rest Hrest). exact Hinit.
  - unfold expand_encoder_for_beam_search in Hex.
    destruct ((length src * k =? 0)%nat || (length (hd [] src) =? 0)%nat) eqn:E;
      [discriminate|].
    apply orb_false_elim in E as [E _]. apply Nat.eqb_neq in E.
    split; [intros ->; apply E; reflexivity|intros ->; apply E; lia].
Qed.

Lemma expand_beams_length src_row b expan c n :
  expand_beams src_row b expan = Ok c ->
  all_of_length n (fst b) -> all_of_length (S n) (fst c).
Proof.
  unfold expand_beams. intros H Hb. bind_inv H as cands Hcands.
  injection H as <-. simpl.
  unfold all_of_length. rewrite Forall_map. apply Forall_concat.
  eapply mapM_Forall; [exact Hcands|].
  intros [row lp] y Hp Hy. simpl in Hy. bind_inv Hy as top Htop.
  injection Hy as <-.
  rewrite Forall_map. apply Forall_forall. intros q _. simpl.
  rewrite length_app. simpl.
  apply in_combine_l in Hp. unfold all_of_length in Hb.
  rewrite Forall_forall in Hb. rewrite (Hb _ Hp). lia.
Qed.

Lemma pad_rows_length target_eos rows n :
  all_of_length n rows ->
  all_of_length n (map (pad_row padding_idx target_eos) rows).
Proof.
  unfold all_of_length. intros H. rewrite Forall_map.
  eapply Forall_impl; [|exact H]. intros r Hr. simpl.
  now rewrite pad_row_refines, pad_after_eos_length.
Qed.

Lemma select_top_rows tgt lps scores expan sel (P : list Z -> Prop) :
  select_top tgt lps scores expan = Ok sel ->
  Forall P tgt -> Forall P (fst (fst sel)).
Proof.
  unfold select_top. intros H HP.
  bind_inv H as top Htop. bind_inv H as tgt' Htgt. bind_inv H as lps' Hlps.
  injection H as <-. simpl.
  eapply mapM_Forall; [exact Htgt|].
  intros p y _ Hy. apply item_In in Hy. rewrite Forall_forall in HP. auto.
Qed.

Lemma split_loop_rows target_eos tgt scores (P : list Z -> Prop) beam_range :
  Forall P tgt ->
  forall st sp,
    split_loop target_eos tgt scores beam_range st = Ok sp ->
    Forall P (fin_sequences st) -> Forall P (fin_sequences sp).
Proof.
  intros HP. induction beam_range as [|beam rest IH]; simpl; intros st sp H Hst.
  - now injection H as <-.
  - bind_inv H as row Hrow. destruct (has_eos target_eos row).
    + bind_inv H as sc Hsc. apply IH in H; auto. simpl.
      apply Forall_app. split; [assumption|]. constructor; [|constructor].
      apply item_In in Hrow. rewrite Forall_forall in HP. auto.
    + apply IH in H; auto.
Qed.

Lemma insert_desc_In x l y :
  In y (insert_desc x l) -> y = x \/ In y l.
Proof.
  induction l as [|z l IH]; simpl.
  - intros [<-|[]]. now left.
  - destruct (PrimFloat.ltb (fst z) (fst x)); simpl.
    + intros [<-|[<-|H]]; auto.
    + intros [<-|H]; auto. apply IH in H as [->|H]; auto.
Qed.

Lemma sorted_desc_In z y : In y (sorted_desc z) -> In y z.
Proof.
  unfold sorted_desc.
  assert (G : forall acc, In y (fold_left (fun acc x => insert_desc x acc) z acc) ->
                          In y z \/ In y acc).
  { induction z as [|x z IH]; simpl; intros acc H; auto.
    apply IH in H as [H|H]; auto.
    apply insert_desc_In in H as [->|H]; auto. }
  intros H. apply G in H as [H|[]]. exact H.
Qed.

Lemma sort_finished_rows k st (P : list Z -> Prop) :
  Forall P (fin_sequences st) -> Forall P (fin_sequences (sort_finished k st)).
Proof.
  intros HP. unfold sort_finished.
  destruct (1 <? length (fin_sequences st))%nat; [|assumption].
  simpl. rewrite Forall_map. apply Forall_forall. intros [sc row] Hin. simpl.
  apply In_firstn in Hin. apply sorted_desc_In in Hin.
  apply in_combine_r in Hin. rewrite Forall_forall in HP. auto.
Qed.

(** One pass of the slow version's loop makes every sequence it keeps,
    alive or finished, one token longer than the beams it started from. *)
Lemma slow_body_length src_row target_eos k st st' brk n :
  slow_body src_row target_eos k st = Ok (st', brk) ->
  all_of_length n (tgt_generation_b st) ->
  all_of_length (S n) (finished_sequences_b st) ->
  all_of_length (S n) (tgt_generation_b st')
  /\ all_of_length (S n) (finished_sequences_b st').
Proof.
  unfold slow_body. intros H Hrows Hfin.
  destruct (negb (length (tgt_generation_b st) =? k)%nat); [discriminate|].
  bind_inv H as cand Hcand.
  assert (Hc : all_of_length (S n)
                 (map (pad_row padding_idx target_eos) (fst cand))).
  { apply pad_rows_length. eapply expand_beams_length; eauto. }
  destruct (score_sequence_for_beam_search
              (map (pad_row padding_idx target_eos) (fst cand)) (snd cand))
    as [lps1 scores1].
  bind_inv H as sel Hsel'.
  assert (Hsel : Forall (fun r => length r = S n) (fst (fst sel)))
    by (eapply select_top_rows; eauto).
  destruct sel as [[tgt2 lps2] scores2]. simpl in Hsel.
  bind_inv H as sp Hsplit.
  assert (Hsp : all_of_length (S n) (fin_sequences (sort_finished k sp))).
  { apply sort_finished_rows. eapply split_loop_rows; eauto. }
  bind_inv H as stop Hstop. destruct stop.
  - injection H as <- <-. simpl. auto.
  - bind_inv H as tgt3 Htgt3. bind_inv H as lps3 Hlps3.
    injection H as <- <-. simpl. split; [|assumption].
    eapply mapM_Forall; [exact Htgt3|].
    intros i y _ Hy. apply item_In in Hy.
    unfold all_of_length in Hsel. rewrite Forall_forall in Hsel. auto.
Qed.

Lemma finalize_single_width (beam : list Z) t :
  finalize_beams_for_beam_search [beam] = Ok t -> width t = length beam.
Proof.
  unfold finalize_beams_for_beam_search. simpl. now intros [= <-].
Qed.

(** With [max_len = 2] and one source sentence, whatever the network, the
    beam width and the ids: a sequence returned by the batched version has
    length [2] and a sequence returned by the slow version has length [3],
    so the two never return the same sequence. *)
Lemma beam_search_lengths_at_max_len_2
      (fuel : nat) (src_row : list Z) (target_sos target_eos : Z) (k : nat)
      (t t' : LongTensor2) :
  beam_search_decode fuel [src_row] target_sos target_eos 2 k = Some (Ok t) ->
  beam_search_decode_slow [src_row] target_sos target_eos 2 k = Ok t' ->
  width t = 2%nat /\ width t' = 3%nat.
Proof.
  unfold beam_search_decode, beam_search_decode_slow.
  destruct (initialize_beams_for_beam_search [src_row] target_sos target_eos k)
    as [init|e] eqn:Einit; simpl; [|discriminate].
  apply initialize_beams_for_beam_search_returns in Einit
    as [stored [_ [Einit _]]].
  simpl in Einit. bind_inv Einit as b Hinit. injection Einit as <-.
  assert (Hb : all_of_length 2 (fst b))
    by (eapply initialize_beams_length; eauto).
  unfold all_of_length in Hb. rewrite Forall_forall in Hb.
  intros Hfast Hslow. split.
  - assert (Hloop : fast_loop fuel 1 target_eos 2 k
                      (mkFast [b] 2 [src_row] [0%nat] [[]] [[]])
                    = Some (Ok (mkFast [b] 2 [src_row] [0%nat] [[]] [[]]))).
    { destruct fuel; reflexivity. }
    rewrite Hloop in Hfast. injection Hfast as Hfast. simpl in Hfast.
    bind_inv Hfast as fin Hfin. bind_inv Hfin as g Hg. injection Hfin as <-.
    simpl in Hfast. apply finalize_single_width in Hfast. rewrite Hfast.
    apply item_In in Hg. auto.
  - bind_inv Hslow as top_beams Htop. bind_inv Htop as beam Hbeam.
    injection Htop as <-.
    apply finalize_single_width in Hslow. rewrite Hslow. clear Hslow.
    unfold slow_example in Hbeam. simpl in Hbeam.
    bind_inv Hbeam as st Hst. bind_inv Hst as r Hr. destruct r as [st' brk].
    assert (st = st') as ->.
    { simpl in Hst. destruct brk; simpl in Hst; now injection Hst as <-. }
    apply slow_body_length with (n := 2%nat) in Hr as [Hrows Hfin];
      [|apply Forall_forall; exact Hb|constructor].
    unfold all_of_length in Hrows, Hfin.
    rewrite Forall_forall in Hrows, Hfin.
    bind_inv Hbeam as fin Hfin'.
    destruct (length (finished_sequences_b st') =? 0)%nat eqn:E.
    + bind_inv Hfin' as top Htop. injection Hfin' as <-.
      apply Nat.eqb_eq in E. apply length_zero_iff_nil in E. rewrite E in Hbeam.
      simpl in Hbeam. unfold item in Hbeam. simpl in Hbeam. injection Hbeam as <-.
      apply item_In in Htop. auto.
    + injection Hfin' as <-. apply item_In in Hbeam. auto.
Qed.

End BeamSearch.

(** ** Further properties of beam search *)

Section BeamFacts.

Variable padding_idx : Z.
Variable log_softmax_last : list Z -> list Z -> list float.
Variable topk : list float -> nat -> list (float * nat).
Variable sum_last : list float -> float.
Variable fill_and_cast : Z -> result Z.

(** *** Scoring *)

Lemma masked_after_pad (n : nat) (l : list float) :
  length l = n ->
  map (fun q : Z * float => if negb (fst q =? padding_idx) then snd q else 0%float)
      (combine (repeat padding_idx n) l)
  = repeat 0%float (length l).
Proof.
  revert l. induction n as [|n IH]; intros [|x l] H; try discriminate; [reflexivity|].
  simpl. rewrite Z.eqb_refl. simpl. f_equal. apply IH. now injection H.
Qed.

Lemma masked_row (t : list Z) (l : list float) :
  length t = length l ->
  map (fun q : Z * float => if negb (fst q =? padding_idx) then snd q else 0%float)
      (combine (pad_row padding_idx padding_idx t) l)
  = firstn (first_eos padding_idx t) l
    ++ repeat 0%float (length l - first_eos padding_idx t).
Proof.
  rewrite pad_row_refines. revert l.
  induction t as [|tok rest IH]; intros [|x l] H; try discriminate; [reflexivity|].
  simpl. destruct (tok =? padding_idx) eqn:E; simpl; rewrite E; simpl.
  - f_equal. apply masked_after_pad. now injection H.
  - f_equal. apply IH. now injection H.
Qed.

(** X12. [score_sequence_for_beam_search] keeps the log-probabilities that come
    before the first padding token of a sequence and sets every later one
    to [0.0], also under a token that is not padding; the score is the sum
    of what is kept. *)
Theorem score_sequence_masks_from_first_pad (tgt_generation : list (list Z))
                                            (seq_log_probs : list (list float)) :
  Forall2 (fun t l => length t = length l) tgt_generation seq_log_probs ->
  score_sequence_for_beam_search padding_idx sum_last tgt_generation seq_log_probs =
  (map (fun p : list Z * list float =>
          firstn (first_eos padding_idx (fst p)) (snd p)
          ++ repeat 0%float (length (snd p) - first_eos padding_idx (fst p)))
       (combine tgt_generation seq_log_probs),
   map (fun p : list Z * list float =>
          sum_last (firstn (first_eos padding_idx (fst p)) (snd p)
                    ++ repeat 0%float (length (snd p) - first_eos padding_idx (fst p))))
       (combine tgt_generation seq_log_probs)).
Proof.
  intros H. unfold score_sequence_for_beam_search.
  assert (E : map (fun p : list Z * list float =>
                     map (fun q : Z * float =>
                            if negb (fst q =? padding_idx) then snd q else 0%float)
                         (combine (fst p) (snd p)))
                  (combine (map (pad_row padding_idx padding_idx) tgt_generation)
                           seq_log_probs)
              = map (fun p : list Z * list float =>
                       firstn (first_eos padding_idx (fst p)) (snd p)
                       ++ repeat 0%float (length (snd p) - first_eos padding_idx (fst p)))
                    (combine tgt_generation seq_log_probs)).
  { induction H as [|t l ts ls Hlen _ IH]; [reflexivity|].
    simpl. rewrite IH. f_equal. now apply masked_row. }
  rewrite E. f_equal. now rewrite map_map.
Qed.

(** *** Finalizing *)

Lemma fold_max_ge (rest : list (list Z)) (m0 : nat) :
  (m0 <= fold_left (fun m r => Nat.max m (length r)) rest m0)%nat
  /\ Forall (fun b => (length b <= fold_left (fun m r => Nat.max m (length r)) rest m0)%nat)
            rest.
Proof.
  revert m0. induction rest as [|r rest IH]; intros m0; simpl.
  - split; [lia|constructor].
  - destruct (IH (Nat.max m0 (length r))) as [H1 H2]. split; [lia|].
    constructor; [lia|assumption].
Qed.

Lemma fold_max_attained (rest : list (list Z)) (m0 : nat) :
  fold_left (fun m r => Nat.max m (length r)) rest m0 = m0
  \/ Exists (fun b => length b = fold_left (fun m r => Nat.max m (length r)) rest m0)
            rest.
Proof.
  revert m0. induction rest as [|r rest IH]; intros m0; simpl; [now left|].
  destruct (IH (Nat.max m0 (length r))) as [H|H].
  - rewrite H. destruct (Nat.max_spec m0 (length r)) as [[_ E]|[_ E]]; rewrite E.
    + right. now left.
    + now left.
  - right. now right.
Qed.

(** X13. For at least one beam, [finalize_beams_for_beam_search] returns a
    well-formed tensor as wide as the longest beam, whose rows are the
    beams, each followed by as many padding ids as it is short of that
    width. *)
Theorem finalize_beams_pads_to_longest (top_beams : list (list Z)) :
  top_beams <> [] ->
  exists t,
    finalize_beams_for_beam_search padding_idx top_beams = Ok t
    /\ wf t
    /\ rows t = map (fun b => b ++ repeat padding_idx (width t - length b)) top_beams
    /\ Forall (fun b => (length b <= width t)%nat) top_beams
    /\ Exists (fun b => length b = width t) top_beams.
Proof.
  intros Hne. destruct top_beams as [|b rest]; [congruence|].
  unfold finalize_beams_for_beam_search.
  set (w := fold_left (fun m r => Nat.max m (length r)) rest (length b)).
  destruct (fold_max_ge rest (length b)) as [Hb Hrest]. fold w in Hb, Hrest.
  assert (Hall : Forall (fun x => (length x <= w)%nat) (b :: rest))
    by (constructor; assumption).
  eexists. split; [reflexivity|]. cbn [width rows].
  split; [|split; [reflexivity|split; [exact Hall|]]].
  - unfold wf. cbn [width rows]. rewrite Forall_map.
    rewrite Forall_forall in Hall. apply Forall_forall. intros x Hx.
    rewrite length_app, repeat_length.
    specialize (Hall x Hx). simpl in Hall. lia.
  - destruct (fold_max_attained rest (length b)) as [H|H]; fold w in H.
    + now left.
    + now right.
Qed.

(** *** An empty batch *)


(** *** The lengths of the sequences returned *)

Definition all_within (n : nat) (rows : list (list Z)) : Prop :=
  Forall (fun r => (length r <= n)%nat) rows.

Lemma all_of_length_within n rows : all_of_length n rows -> all_within n rows.
Proof.
  apply Forall_impl. intros r ->. lia.
Qed.

Lemma all_within_weaken n m rows : (n <= m)%nat -> all_within n rows -> all_within m rows.
Proof.
  intros Hnm. apply Forall_impl. intros r Hr. lia.
Qed.

Lemma list_set_Forall {A : Type} (P : A -> Prop) (l : list A) (j : nat) (v : A) :
  Forall P l -> P v -> Forall P (list_set l j v).
Proof.
  intros Hl Hv. revert j. induction Hl as [|x l Hx Hl IH]; intros j; simpl.
  - constructor.
  - destruct j; constructor; auto.
Qed.

Lemma fold_max_le (rest : list (list Z)) (m0 m : nat) :
  (m0 <= m)%nat -> all_within m rest ->
  (fold_left (fun a r => Nat.max a (length r)) rest m0 <= m)%nat.
Proof.
  intros H0 Hrest. revert m0 H0.
  induction Hrest as [|r rest Hr _ IH]; intros m0 H0; simpl; [assumption|].
  apply IH. lia.
Qed.

Lemma finalize_width_le (top_beams : list (list Z)) (t : LongTensor2) (m : nat) :
  finalize_beams_for_beam_search padding_idx top_beams = Ok t ->
  all_within m top_beams -> (width t <= m)%nat.
Proof.
  unfold finalize_beams_for_beam_search.
  destruct top_beams as [|b rest]; [discriminate|].
  intros [= <-] Hall. simpl. inversion Hall; subst. now apply fold_max_le.
Qed.

(** One pass of the slow version's loop: the alive beams get one token
    longer and no finished sequence is longer than they are. *)
Lemma slow_body_bound src_row target_eos k st st' brk n :
  slow_body padding_idx log_softmax_last topk sum_last src_row target_eos k st
    = Ok (st', brk) ->
  all_of_length n (tgt_generation_b st) ->
  all_within (S n) (finished_sequences_b st) ->
  all_of_length (S n) (tgt_generation_b st')
  /\ all_within (S n) (finished_sequences_b st').
Proof.
  unfold slow_body. intros H Hrows Hfin.
  destruct (negb (length (tgt_generation_b st) =? k)%nat); [discriminate|].
  bind_inv H as cand Hcand.
  assert (Hc : all_of_length (S n)
                 (map (pad_row padding_idx target_eos) (fst cand))).
  { apply pad_rows_length. eapply expand_beams_length; eauto. }
  destruct (score_sequence_for_beam_search padding_idx sum_last
              (map (pad_row padding_idx target_eos) (fst cand)) (snd cand))
    as [lps1 scores1].
  bind_inv H as sel Hsel'.
  assert (Hsel : all_of_length (S n) (fst (fst sel)))
    by (eapply select_top_rows; eauto).
  destruct sel as [[tgt2 lps2] scores2]. simpl in Hsel.
  bind_inv H as sp Hsplit.
  assert (Hsp : all_within (S n) (fin_sequences (sort_finished k sp))).
  { apply sort_finished_rows.
    eapply split_loop_rows with (tgt := tgt2);
      [apply all_of_length_within; exact Hsel|exact Hsplit|exact Hfin]. }
  bind_inv H as stop Hstop. destruct stop.
  - injection H as <- <-. simpl. auto.
  - bind_inv H as tgt3 Htgt3. bind_inv H as lps3 Hlps3.
    injection H as <- <-. simpl. split; [|assumption].
    eapply mapM_Forall; [exact Htgt3|].
    intros i y _ Hy. apply item_In in Hy.
    unfold all_of_length in Hsel. rewrite Forall_forall in Hsel. auto.
Qed.

Lemma slow_loop_bound src_row target_eos k i_range :
  forall st st' n,
    slow_loop padding_idx log_softmax_last topk sum_last src_row target_eos k
              i_range st = Ok st' ->
    all_of_length n (tgt_generation_b st) ->
    all_within n (finished_sequences_b st) ->
    exists n', (n <= n' <= n + length i_range)%nat
               /\ all_of_length n' (tgt_generation_b st')
               /\ all_within n' (finished_sequences_b st').
Proof.
  induction i_range as [|i rest IH]; intros st st' n H Hrows Hfin; simpl in H.
  - injection H as <-. exists n. simpl. repeat split; auto; lia.
  - bind_inv H as r Hr. destruct r as [st1 brk].
    apply slow_body_bound with (n := n) in Hr as [Hrows1 Hfin1]; auto;
      [|eapply all_within_weaken; [|exact Hfin]; lia].
    simpl in H. destruct brk.
    + injection H as <-. exists (S n). simpl. repeat split; auto; lia.
    + apply IH with (n := S n) in H as [n' [Hn [H1 H2]]]; auto.
      exists n'. simpl. repeat split; auto; lia.
Qed.

Lemma slow_example_bound target_eos max_len k src_row b beam :
  slow_example padding_idx log_softmax_last topk sum_last target_eos max_len k
               src_row b = Ok beam ->
  all_of_length 2 (fst b) ->
  (length beam <= 2 + Z.to_nat (max_len - 1))%nat.
Proof.
  unfold slow_example. intros H Hb. bind_inv H as st Hst.
  apply slow_loop_bound with (n := 2%nat) in Hst as [n' [Hn [Hrows Hfin]]];
    [|exact Hb|constructor].
  unfold range_from_1 in Hn. rewrite length_seq in Hn.
  bind_inv H as fin Hfin'. apply item_In in H.
  unfold all_of_length in Hrows. unfold all_within in Hfin.
  rewrite Forall_forall in Hrows, Hfin.
  destruct (length (finished_sequences_b st) =? 0)%nat.
  - bind_inv Hfin' as top Htop. injection Hfin' as <-.
    apply item_In in Htop. apply in_app_or in H as [H|[<-|[]]].
    + specialize (Hfin _ H). simpl in Hfin. lia.
    + rewrite (Hrows _ Htop). lia.
  - injection Hfin' as <-. specialize (Hfin _ H). simpl in Hfin. lia.
Qed.

Lemma initialize_all_length_2 src target_sos target_eos k init :
  initialize_beams_for_beam_search log_softmax_last topk fill_and_cast
                                   src target_sos target_eos k
    = Ok init ->
  Forall (fun b : beams => all_of_length 2 (fst b)) init.
Proof.
  intros H.
  apply initialize_beams_for_beam_search_returns in H as [stored [_ [H _]]].
  eapply mapM_Forall; [exact H|].
  intros src_row b _ Hb. eapply initialize_beams_length. exact Hb.
Qed.

(** X15. A sequence that [beam_search_decode_slow] returns is at most
    [max_len + 1] tokens long (and [2] when [max_len] is below [1]): the
    initial beams hold two tokens and each of the [max_len - 1] passes of
    the loop adds one. *)
Theorem beam_search_decode_slow_length (src : list (list Z))
                                       (target_sos target_eos max_len : Z) (k : nat)
                                       (t : LongTensor2) :
  beam_search_decode_slow padding_idx log_softmax_last topk sum_last fill_and_cast
                          src target_sos target_eos max_len k = Ok t ->
  Z.of_nat (width t) <= Z.max 2 (max_len + 1).
Proof.
  unfold beam_search_decode_slow. intros H.
  bind_inv H as init Hinit. bind_inv H as top_beams Htop.
  apply initialize_all_length_2 in Hinit.
  assert (Hall : all_within (2 + Z.to_nat (max_len - 1)) top_beams).
  { eapply mapM_Forall; [exact Htop|].
    intros [src_row b] beam Hin Hbeam. simpl in Hbeam.
    apply in_combine_r in Hin. rewrite Forall_forall in Hinit.
    eapply slow_example_bound; eauto. }
  apply finalize_width_le with (m := (2 + Z.to_nat (max_len - 1))%nat) in H;
    [lia|exact Hall].
Qed.

(** The invariant of the batched version's loop. *)
Definition fast_inv (n : nat) (st : fast_state) : Prop :=
  cur_len st = n
  /\ Forall (fun b : beams => all_of_length n (fst b)) (cur_beams st)
  /\ Forall (all_within n) (finished_sequences st).

Lemma fast_split_finished target_eos k (P : list Z -> Prop) todo :
  forall acc acc',
    fast_split target_eos k todo acc = Ok acc' ->
    Forall (fun td : nat * (nat * (beams * list float)) =>
              Forall P (fst (fst (snd (snd td))))) todo ->
    Forall (Forall P) (acc_finished_sequences acc) ->
    Forall (Forall P) (acc_finished_sequences acc').
Proof.
  induction todo as [|[b [original_b [sel scores]]] rest IH];
    intros acc acc' H Htodo Hacc; simpl in H.
  - now injection H as <-.
  - inversion Htodo as [|? ? Hsel Hrest]; subst. simpl in Hsel.
    bind_inv H as fs Hfs. bind_inv H as fsc Hfsc. bind_inv H as sp Hsp.
    bind_inv H as has_finished Hstop.
    assert (Hnew : Forall P (fin_sequences (sort_finished k sp))).
    { apply sort_finished_rows. eapply split_loop_rows; [exact Hsel|exact Hsp|].
      simpl. apply item_In in Hfs. rewrite Forall_forall in Hacc. auto. }
    destruct has_finished; apply IH in H; auto; simpl;
      now apply list_set_Forall.
Qed.

Lemma gather_alive_rows k (b b' : beams) alive (P : list Z -> Prop) :
  gather_alive k b alive = Ok b' -> Forall P (fst b) -> Forall P (fst b').
Proof.
  unfold gather_alive. intros H HP.
  destruct (negb (length (firstn k alive) =? k)%nat); [discriminate|].
  bind_inv H as tgt Htgt. bind_inv H as lps Hlps. injection H as <-. simpl.
  eapply mapM_Forall; [exact Htgt|].
  intros i y _ Hy. apply item_In in Hy. rewrite Forall_forall in HP. auto.
Qed.

Lemma fast_body_inv target_eos k st st' brk n :
  fast_body padding_idx log_softmax_last topk sum_last target_eos k st
    = Ok (st', brk) ->
  fast_inv n st -> fast_inv (S n) st'.
Proof.
  unfold fast_body. intros H [Hlen [Hbeams Hfin]].
  bind_inv H as sels Hsels.
  assert (Hsel : Forall (fun sel : beams * list float =>
                           all_of_length (S n) (fst (fst sel))) sels).
  { eapply mapM_Forall; [exact Hsels|].
    intros [src_row b] sel Hin Hsel. simpl in Hsel.
    bind_inv Hsel as cand Hcand.
    destruct (score_sequence_for_beam_search padding_idx sum_last
                (fst cand) (snd cand)) as [lps1 scores1].
    eapply select_top_rows; [exact Hsel|].
    eapply expand_beams_length; [exact Hcand|].
    apply in_combine_r in Hin. rewrite Forall_forall in Hbeams. now apply Hbeams. }
  bind_inv H as acc Hacc.
  apply fast_split_finished with (P := fun r => (length r <= S n)%nat) in Hacc.
  - destruct (length (acc_has_not_finished_idxs acc) =? 0)%nat.
    + injection H as <- <-. unfold fast_inv. simpl.
      split; [now rewrite Hlen|]. split; [|exact Hacc].
      rewrite Forall_map. eapply Forall_impl; [|exact Hsel]. auto.
    + bind_inv H as new_beams Hnew. bind_inv H as new_src Hsrc.
      bind_inv H as new_ids Hids. injection H as <- <-. unfold fast_inv. simpl.
      split; [now rewrite Hlen|]. split; [|exact Hacc].
      eapply mapM_Forall; [exact Hnew|].
      intros [b alive] b' _ Hb'. simpl in Hb'. bind_inv Hb' as sel Hsel'.
      eapply gather_alive_rows; [exact Hb'|].
      apply item_In in Hsel'. rewrite Forall_forall in Hsel. now apply Hsel.
  - apply Forall_forall. intros [b [original_b [sel scores]]] Hin. simpl.
    apply in_combine_r in Hin. apply in_combine_r in Hin.
    rewrite Forall_forall in Hsel. apply all_of_length_within.
    exact (Hsel _ Hin).
  - simpl. eapply Forall_impl; [|exact Hfin].
    intros rows Hrows. eapply all_within_weaken; [|exact Hrows]. lia.
Qed.

Lemma fast_loop_inv batch target_eos max_len k fuel :
  forall st st' n,
    fast_loop padding_idx log_softmax_last topk sum_last fuel batch target_eos
              max_len k st = Some (Ok st') ->
    fast_inv n st ->
    exists n', fast_inv n' st'
               /\ Z.of_nat n' <= Z.max (Z.of_nat n) max_len.
Proof.
  induction fuel as [|fuel IH]; intros st st' n H Hinv; simpl in H;
    destruct (negb (all_is_finished batch) && (Z.of_nat (cur_len st) <? max_len))
      eqn:E; try discriminate;
    try (injection H as <-; exists n; split; [assumption|lia]).
  apply andb_true_iff in E as [_ E]. apply Z.ltb_lt in E.
  assert (Hn : cur_len st = n) by (destruct Hinv; assumption).
  destruct (fast_body padding_idx log_softmax_last topk sum_last target_eos k st)
    as [[st1 brk]|e] eqn:Ebody; [|discriminate].
  apply fast_body_inv with (n := n) in Ebody; [|exact Hinv].
  destruct brk.
  - injection H as <-. exists (S n). split; [assumption|lia].
  - apply IH with (n := S n) in H as [n' [Hinv' Hn']]; [|exact Ebody].
    exists n'. split; [assumption|lia].
Qed.

Lemma fast_body_cur_len target_eos k st st' brk :
  fast_body padding_idx log_softmax_last topk sum_last target_eos k st
    = Ok (st', brk) ->
  cur_len st' = S (cur_len st).
Proof.
  unfold fast_body. intros H.
  bind_inv H as sels Hsels. bind_inv H as acc Hacc.
  destruct (length (acc_has_not_finished_idxs acc) =? 0)%nat.
  - now injection H as <- <-.
  - bind_inv H as new_beams Hnew. bind_inv H as new_src Hsrc.
    bind_inv H as new_ids Hids. now injection H as <- <-.
Qed.

Lemma fast_loop_enough_fuel batch target_eos max_len k fuel :
  forall st,
    (Z.to_nat max_len - cur_len st <= fuel)%nat ->
    fast_loop padding_idx log_softmax_last topk sum_last fuel batch target_eos
              max_len k st <> None.
Proof.
  induction fuel as [|fuel IH]; intros st Hfuel; simpl;
    destruct (negb (all_is_finished batch) && (Z.of_nat (cur_len st) <? max_len))
      eqn:E; try discriminate.
  - apply andb_true_iff in E as [_ E]. apply Z.ltb_lt in E. lia.
  - destruct (fast_body padding_idx log_softmax_last topk sum_last target_eos k st)
      as [[st1 brk]|e] eqn:Ebody; [|discriminate].
    destruct brk; [discriminate|].
    apply IH. apply fast_body_cur_len in Ebody. lia.
Qed.

Lemma take_top_alive_rows n todo :
  forall fin fin',
    take_top_alive todo fin = Ok fin' ->
    Forall (fun td : nat * beams => all_within n (fst (snd td))) todo ->
    Forall (all_within n) fin -> Forall (all_within n) fin'.
Proof.
  induction todo as [|[original_b b] rest IH]; intros fin fin' H Htodo Hfin;
    simpl in H.
  - now injection H as <-.
  - inversion Htodo as [|? ? Hb Hrest]; subst. simpl in Hb.
    bind_inv H as fs Hfs. destruct (length fs =? 0)%nat.
    + bind_inv H as g Hg. apply IH in H; auto.
      apply list_set_Forall; [assumption|].
      apply Forall_app. split.
      * apply item_In in Hfs. rewrite Forall_forall in Hfin. now apply Hfin.
      * constructor; [|constructor]. apply item_In in Hg.
        unfold all_within in Hb. rewrite Forall_forall in Hb. now apply Hb.
    + apply IH in H; auto.
Qed.

(** X16. With fuel for [max_len] passes the batched version's loop has ended,
    and a sequence that [beam_search_decode] returns is at most [max_len]
    tokens long (and [2] when [max_len] is below [2]). *)
Theorem beam_search_decode_length (fuel : nat) (src : list (list Z))
                                  (target_sos target_eos max_len : Z) (k : nat) :
  (Z.to_nat max_len <= fuel)%nat ->
  beam_search_decode padding_idx log_softmax_last topk sum_last fill_and_cast
                     fuel src target_sos target_eos max_len k <> None
  /\ forall t,
       beam_search_decode padding_idx log_softmax_last topk sum_last fill_and_cast
                          fuel src target_sos target_eos max_len k = Some (Ok t) ->
       Z.of_nat (width t) <= Z.max 2 max_len.
Proof.
  intros Hfuel. unfold beam_search_decode.
  destruct (initialize_beams_for_beam_search log_softmax_last topk fill_and_cast src
              target_sos target_eos k) as [init|e] eqn:Einit;
    [|split; [discriminate|intros t; discriminate]].
  apply initialize_all_length_2 in Einit.
  set (st0 := mkFast init 2 src (seq 0 (length src))
                     (repeat [] (length src)) (repeat [] (length src))).
  assert (Hinv0 : fast_inv 2 st0).
  { unfold fast_inv, st0. simpl. split; [reflexivity|]. split; [exact Einit|].
    apply Forall_forall. intros x Hx. apply repeat_spec in Hx. subst x.
    constructor. }
  pose proof (@fast_loop_enough_fuel (length src) target_eos max_len k fuel st0)
    as Hsome.
  destruct (fast_loop padding_idx log_softmax_last topk sum_last fuel (length src)
              target_eos max_len k st0) as [[st|e]|] eqn:Eloop.
  - split; [discriminate|]. intros t [= H].
    apply fast_loop_inv with (n := 2%nat) in Eloop as [n' [[Hlen [Hbeams Hfin]] Hn']];
      [|exact Hinv0].
    bind_inv H as fin Hfin'. bind_inv H as top_beams Htop.
    assert (Hfin2 : Forall (all_within n') fin).
    { destruct (negb (all_is_finished (length src))).
      - eapply take_top_alive_rows; [exact Hfin'| |exact Hfin].
        apply Forall_forall. intros [original_b b] Hin. simpl.
        apply in_combine_r in Hin. rewrite Forall_forall in Hbeams.
        apply all_of_length_within. now apply Hbeams.
      - now injection Hfin' as <-. }
    assert (Hall : all_within n' top_beams).
    { eapply mapM_Forall; [exact Htop|].
      intros x y Hx Hy. apply item_In in Hy.
      rewrite Forall_forall in Hfin2. specialize (Hfin2 x Hx).
      unfold all_within in Hfin2. rewrite Forall_forall in Hfin2. now apply Hfin2. }
    apply finalize_width_le with (m := n') in H; [|exact Hall].
    simpl in Hn'. lia.
  - split; [discriminate|intros t; discriminate].
  - exfalso. apply Hsome; [|reflexivity]. simpl. lia.
Qed.

End BeamFacts.

(** ** [MultiHeadAttention] *)

Section Attention.

(** Float tensors, the array a stored snapshot is held as, the boolean mask
    tensors and the state of the dropout generator are the library's. *)
Variable Tensor : Type.
Variable ndarray : Type.
Variable Mask : Type.
Variable Rng : Type.

(** [scores.cpu().detach().numpy()] *)
Variable to_numpy : Tensor -> ndarray.

(** The four [nn.Linear] layers and the two [nn.Dropout] layers; a dropout
    layer reads the module's mode and advances the generator. *)
Variable q_linear k_linear v_linear out_linear : Tensor -> Tensor.
Variable atten_dropout dropout : bool -> Rng -> Tensor -> Tensor * Rng.

(** [t.size(0)], [t.view(bs, -1, num_heads, d_head).transpose(1, 2)] and
    [x.transpose(1, 2).contiguous().view(bs, -1, num_heads * d_head)]. *)
Variable size0 : Tensor -> nat.
Variable split_heads : nat -> nat -> nat -> Tensor -> Tensor.
Variable merge_heads : nat -> nat -> Tensor -> Tensor.

(** [torch.matmul(query, key.transpose(-2, -1)) / math.sqrt(d_head)],
    [mask.unsqueeze(1).expand(-1, num_heads, -1, -1)],
    [scores.masked_fill(mask, float('-inf'))], [torch.softmax(_, dim=-1)]
    and [torch.matmul]. *)
Variable scaled_dot : nat -> Tensor -> Tensor -> Tensor.
Variable expand_mask : nat -> Mask -> Mask.
Variable masked_fill_neg_inf : Tensor -> Mask -> Tensor.
Variable softmax_last : Tensor -> Tensor.
Variable matmul : Tensor -> Tensor -> Tensor.

Record MultiHeadAttention : Type := mkMHA {
  d_head : nat;
  num_heads : nat;
  store_attention_scores : bool;
  training : bool;
  attention_scores : option ndarray;
  generator : Rng
}.

Definition with_attention_scores (self : MultiHeadAttention) (a : option ndarray)
  : MultiHeadAttention :=
  mkMHA (d_head self) (num_heads self) (store_attention_scores self)
        (training self) a (generator self).

Definition with_generator (self : MultiHeadAttention) (g : Rng) : MultiHeadAttention :=
  mkMHA (d_head self) (num_heads self) (store_attention_scores self)
        (training self) (attention_scores self) g.

Definition none_has_no_cpu : string := "'NoneType' object has no attribute 'cpu'".

(** The two [if] statements of [set_attention_scores], one after the other. *)
Definition set_attention_scores (self : MultiHeadAttention) (scores : option Tensor)
  : result unit * MultiHeadAttention :=
  let self1 := match scores with
               | None => with_attention_scores self None
               | Some _ => self
               end in
  if store_attention_scores self1 && negb (training self1) then
    match scores with
    | None => (Raise (AttributeError none_has_no_cpu), self1)
    | Some sc => (Ok tt, with_attention_scores self1 (Some (to_numpy sc)))
    end
  else (Ok tt, self1).

Definition attention (self : MultiHeadAttention) (query key value : Tensor)
                     (mask : option Mask) : result Tensor * MultiHeadAttention :=
  let attention_scores0 := scaled_dot (d_head self) query key in
  let attention_scores1 :=
    match mask with
    | Some m => masked_fill_neg_inf attention_scores0 (expand_mask (num_heads self) m)
    | None => attention_scores0
    end in
  match set_attention_scores self (Some attention_scores1) with
  | (Raise e, self1) => (Raise e, self1)
  | (Ok _, self1) =>
      let '(attention_weights, g) :=
        atten_dropout (training self1) (generator self1) (softmax_last attention_scores1) in
      (Ok (matmul attention_weights value), with_generator self1 g)
  end.

Definition forward (self : MultiHeadAttention) (query : Tensor)
                   (key value : option Tensor) (mask : option Mask)
  : result Tensor * MultiHeadAttention :=
  let '(key1, value1) :=
    match key, value with
    | Some k, Some v => (k, v)
    | _, _ => (query, query)
    end in
  let query2 := q_linear query in
  let key2 := k_linear key1 in
  let value2 := v_linear value1 in
  let bs := size0 query2 in
  let query3 := split_heads bs (num_heads self) (d_head self) query2 in
  let key3 := split_heads bs (num_heads self) (d_head self) key2 in
  let value3 := split_heads bs (num_heads self) (d_head self) value2 in
  match attention self query3 key3 value3 mask with
  | (Raise e, self1) => (Raise e, self1)
  | (Ok x, self1) =>
      let x1 := merge_heads bs (num_heads self1 * d_head self1) x in
      let x2 := out_linear x1 in
      let '(x3, g) := dropout (training self1) (generator self1) x2 in
      (Ok x3, with_generator self1 g)
  end.

(** C8, on the code. A call with an absent value clears the stored snapshot
    in every state, and completes without raising in every state but one:
    with the store flag set and the module in evaluation mode the second
    [if] dereferences the absent value and the call raises. *)
Theorem set_attention_scores_none (self : MultiHeadAttention) :
  set_attention_scores self None =
  (if store_attention_scores self && negb (training self)
   then Raise (AttributeError none_has_no_cpu)
   else Ok tt,
   with_attention_scores self None).
Proof.
  unfold set_attention_scores. simpl.
  destruct (store_attention_scores self && negb (training self)); reflexivity.
Qed.

(** C10. With only one of [key] and [value] supplied, [forward] discards
    the supplied tensor: the output and the module's state afterwards are
    those of the call with both omitted. *)
Theorem forward_one_sided_is_self_attention
        (self : MultiHeadAttention) (query t : Tensor) (mask : option Mask) :
  forward self query (Some t) None mask = forward self query None None mask
  /\ forward self query None (Some t) mask = forward self query None None mask.
Proof.
  split; reflexivity.
Qed.

(** Cross-attention proper does read both tensors. *)
Lemma forward_cross_attention (self : MultiHeadAttention)
                              (query k v : Tensor) (mask : option Mask) :
  forward self query (Some k) (Some v) mask =
  (let bs := size0 (q_linear query) in
   match attention self
           (split_heads bs (num_heads self) (d_head self) (q_linear query))
           (split_heads bs (num_heads self) (d_head self) (k_linear k))
           (split_heads bs (num_heads self) (d_head self) (v_linear v)) mask with
   | (Raise e, self1) => (Raise e, self1)
   | (Ok x, self1) =>
       let '(x3, g) := dropout (training self1) (generator self1)
                         (out_linear (merge_heads bs (num_heads self1 * d_head self1) x)) in
       (Ok x3, with_generator self1 g)
   end).
Proof. reflexivity. Qed.

End Attention.

(** ** Further properties of the attention modules *)

Section AttentionFacts.

Variable Tensor : Type.
Variable ndarray : Type.
Variable Mask : Type.
Variable Rng : Type.
Variable to_numpy : Tensor -> ndarray.
Variable q_linear k_linear v_linear out_linear : Tensor -> Tensor.
Variable atten_dropout dropout : bool -> Rng -> Tensor -> Tensor * Rng.
Variable size0 : Tensor -> nat.
Variable split_heads : nat -> nat -> nat -> Tensor -> Tensor.
Variable merge_heads : nat -> nat -> Tensor -> Tensor.
Variable scaled_dot : nat -> Tensor -> Tensor -> Tensor.
Variable expand_mask : nat -> Mask -> Mask.
Variable masked_fill_neg_inf : Tensor -> Mask -> Tensor.
Variable softmax_last : Tensor -> Tensor.
Variable matmul : Tensor -> Tensor -> Tensor.

(** X17. [forward] never raises on account of the snapshot hook, and it leaves
    the module's sizes, flag and mode as they were. With the store flag set
    and the module in evaluation mode the module holds a fresh snapshot
    afterwards; in every other state the snapshot it held is untouched. *)
Theorem forward_snapshot (self : MultiHeadAttention ndarray Rng) (query : Tensor)
                         (key value : option Tensor) (mask : option Mask) :
  exists x self',
    forward to_numpy q_linear k_linear v_linear out_linear atten_dropout dropout
            size0 split_heads merge_heads scaled_dot expand_mask
            masked_fill_neg_inf softmax_last matmul self query key value mask
      = (Ok x, self')
    /\ d_head self' = d_head self
    /\ num_heads self' = num_heads self
    /\ store_attention_scores self' = store_attention_scores self
    /\ training self' = training self
    /\ (if store_attention_scores self && negb (training self)
        then exists scores, attention_scores self' = Some (to_numpy scores)
        else attention_scores self' = attention_scores self).
Proof.
  unfold forward, attention, set_attention_scores.
  destruct key as [k|], value as [v|]; cbn [fst snd];
    destruct (store_attention_scores self && negb (training self)) eqn:E;
    cbn [with_attention_scores store_attention_scores training generator
         d_head num_heads attention_scores];
    repeat match goal with
           | |- context [atten_dropout ?a ?b ?c] => destruct (atten_dropout a b c)
           | |- context [dropout ?a ?b ?c] => destruct (dropout a b c)
           end;
    do 2 eexists; (split; [reflexivity|]); simpl; repeat split; eauto.
Qed.

(** *** The decoder's snapshot switches *)

(** The two attention modules of a [TransformerDecoderLayer]. *)
Record DecoderLayer : Type := mkLayer {
  self_attn : MultiHeadAttention ndarray Rng;
  cross_attn : MultiHeadAttention ndarray Rng
}.

Definition with_store_flag (m : MultiHeadAttention ndarray Rng) (should_store : bool)
  : MultiHeadAttention ndarray Rng :=
  mkMHA (d_head m) (num_heads m) should_store (training m) (attention_scores m)
        (generator m).

(** [TransformerDecoderLayer.store_attention_scores] and
    [TransformerDecoderLayer.get_attention_scores]. *)
Definition layer_store_attention_scores (layer : DecoderLayer) (should_store : bool)
  : DecoderLayer :=
  mkLayer (with_store_flag (self_attn layer) should_store)
          (with_store_flag (cross_attn layer) should_store).

Definition layer_get_attention_scores (layer : DecoderLayer)
  : option ndarray * option ndarray :=
  (attention_scores (self_attn layer), attention_scores (cross_attn layer)).

(** [TransformerDecoder.store_attention_scores] and
    [TransformerDecoder.get_attention_scores], over [self.layers]. *)
Definition decoder_store_attention_scores (layers : list DecoderLayer)
                                          (should_store : bool) : list DecoderLayer :=
  map (fun layer => layer_store_attention_scores layer should_store) layers.

Definition decoder_get_attention_scores (layers : list DecoderLayer)
  : list (option ndarray * option ndarray) :=
  fold_left (fun scores layer => scores ++ [layer_get_attention_scores layer]) layers [].

Lemma decoder_get_map (layers : list DecoderLayer) acc :
  fold_left (fun scores layer => scores ++ [layer_get_attention_scores layer]) layers acc
  = acc ++ map layer_get_attention_scores layers.
Proof.
  revert acc. induction layers as [|l layers IH]; intros acc; simpl.
  - now rewrite app_nil_r.
  - rewrite IH, <- app_assoc. reflexivity.
Qed.

(** X28. Switching the storing of snapshots on or off sets the flag of both
    attention modules of every layer and clears nothing: the decoder
    reports one pair of snapshots per layer, the same pairs as before the
    switch. *)
Theorem decoder_store_keeps_snapshots (layers : list DecoderLayer)
                                      (should_store : bool) :
  decoder_get_attention_scores (decoder_store_attention_scores layers should_store)
    = decoder_get_attention_scores layers
  /\ length (decoder_get_attention_scores layers) = length layers
  /\ Forall (fun layer =>
               store_attention_scores (self_attn layer) = should_store
               /\ store_attention_scores (cross_attn layer) = should_store)
            (decoder_store_attention_scores layers should_store).
Proof.
  unfold decoder_get_attention_scores, decoder_store_attention_scores.
  rewrite !decoder_get_map. simpl. repeat split.
  - rewrite map_map. reflexivity.
  - apply length_map.
  - rewrite Forall_map. apply Forall_forall. intros layer _. simpl. auto.
Qed.

End AttentionFacts.

(** *** Concrete runs of the attention hooks *)

(** A module that stores snapshots, in evaluation mode, holding a snapshot:
    the clean-up call raises, having dropped the snapshot. *)
Example clean_up_call_raises_in_evaluation_mode :
  set_attention_scores (fun t : list float => t)
                       (mkMHA 16 4 true false (Some [1%float]) tt) None
  = (Raise (AttributeError none_has_no_cpu), mkMHA 16 4 true false None tt).
Proof. reflexivity. Qed.

(** The same module in training mode: the clean-up call returns. *)
Example clean_up_call_returns_in_training_mode :
  set_attention_scores (fun t : list float => t)
                       (mkMHA 16 4 true true (Some [1%float]) tt) None
  = (Ok tt, mkMHA 16 4 true true None tt).
Proof. reflexivity. Qed.

(** *** Concrete runs of the decoding helpers *)

Example pad_generation_sequence_run :
  pad_generation_sequence 2 (mkT2 5 [[0; 7; 1; 9; 9]; [0; 7; 8; 9; 4]]) 1 =
  mkT2 5 [[0; 7; 1; 2; 2]; [0; 7; 8; 9; 4]].
Proof. reflexivity. Qed.

Lemma pad_generation_sequence_idempotent_witness :
  (forall row, In row (rows (mkT2 3 [[0; 7; 8]])) -> ~ In 1 row)
  /\ pad_generation_sequence 2 (mkT2 3 [[0; 7; 8]]) 1 = mkT2 3 [[0; 7; 8]].
Proof.
  assert (H : forall row, In row (rows (mkT2 3 [[0; 7; 8]])) -> ~ In 1 row).
  { intros row [<-|[]] [E|[E|[E|[]]]]; discriminate E. }
  split; [exact H|].
  exact (proj2 (@pad_generation_sequence_idempotent 2 (mkT2 3 [[0; 7; 8]]) 1) H).
Defined.

Example greedy_decode_run :
  greedy_decode 2 sample_encoder always_seven float32_column
                4 (mkT2 2 [[5; 6]; [6; 5]]) 0 1 4 =
  Some (Ok (mkT2 4 [[0; 7; 7; 7]; [0; 7; 7; 7]])).
Proof. reflexivity. Qed.

(** A run that the network ends with an exception: the fourth round asks
    for a position the table does not hold. *)
Example greedy_decode_run_raises :
  greedy_decode 2 sample_encoder table_of_three float32_column
                10 (mkT2 2 [[5; 6]; [6; 5]]) 0 1 10 =
  Some (Raise (RuntimeError "The size of tensor a must match the size of tensor b")).
Proof. reflexivity. Qed.

(** On an empty batch the encoder raises before the loop is entered. *)
Example greedy_decode_empty_batch :
  greedy_decode 2 sample_encoder always_seven float32_column
                4 (mkT2 2 []) 0 1 4 =
  Some (Raise (RuntimeError "cannot reshape tensor of 0 elements")).
Proof. reflexivity. Qed.

Lemma greedy_decode_length_witness :
  (Z.to_nat 4 <= 4)%nat
  /\ greedy_decode 2 sample_encoder always_seven float32_column
                   4 (mkT2 2 [[5; 6]; [6; 5]]) 0 1 4 <> None
  /\ forall out,
       greedy_decode 2 sample_encoder always_seven float32_column
                     4 (mkT2 2 [[5; 6]; [6; 5]]) 0 1 4 = Some (Ok out) ->
       Z.of_nat (width out) <= Z.max 1 4.
Proof.
  split; [simpl; lia|].
  apply (@greedy_decode_length 2 unit sample_encoder always_seven float32_column
           4 (mkT2 2 [[5; 6]; [6; 5]]) 0 1 4).
  simpl; lia.
Defined.

(** C6 as stated fails at [max_len = 0]: the sequence returned is the sos
    column, whose length [1] exceeds [max_len]. *)
Lemma greedy_decode_exceeds_zero_max_len :
  greedy_decode 2 sample_encoder always_seven float32_column
                1 (mkT2 2 [[5; 6]]) 0 1 0 = Some (Ok (mkT2 1 [[0]]))
  /\ ~ (Z.of_nat (width (mkT2 1 [[0]])) <= 0).
Proof.
  split; [reflexivity|]. simpl. lia.
Qed.

(** *** Concrete runs of beam search *)

(** [torch.topk] on a row: the [k] largest values in descending order, the
    earlier index first among equal values. *)
Fixpoint insert_by_value (x : float * nat) (l : list (float * nat)) : list (float * nat) :=
  match l with
  | [] => [x]
  | y :: rest =>
      if PrimFloat.ltb (fst y) (fst x) then x :: l else y :: insert_by_value x rest
  end.

Definition stable_topk (xs : list float) (k : nat) : list (float * nat) :=
  firstn k (fold_left (fun acc x => insert_by_value x acc)
                      (combine xs (seq 0 (length xs))) []).

Definition sum_left (xs : list float) : float :=
  fold_left (fun a x => (a + x)%float) xs 0%float.

(** A network over the vocabulary sos [0], eos [1], pad [2] and the words
    [3] and [4] that gives every prefix the same log-probabilities, the eos
    token being less likely than either word. *)
Definition steady_network (src_row prefix : list Z) : list float :=
  [(-5)%float; (-2)%float; (-6)%float; (-0.5)%float; (-1)%float].

(** A network that prefers the eos token once a word has been produced. *)
Definition ending_network (src_row prefix : list Z) : list float :=
  [(-5)%float; (-0.25)%float; (-6)%float; (-2)%float; (-3)%float].

Example initialize_beams_run :
  initialize_beams steady_network stable_topk [7; 8] [0] 1 2 =
  Ok ([[0; 3]; [0; 4]], [[0%float; (-0.5)%float]; [0%float; (-1)%float]]).
Proof. reflexivity. Qed.

(** With room for the search to stop by itself the two versions agree. *)
Example beam_search_agree_when_stopping_early :
  beam_search_decode 2 ending_network stable_topk sum_left float32_column 10 [[7; 8]] 0 1 6 2
  = Some (Ok (mkT2 3 [[0; 3; 1]]))
  /\ beam_search_decode_slow 2 ending_network stable_topk sum_left float32_column [[7; 8]] 0 1 6 2
     = Ok (mkT2 3 [[0; 3; 1]]).
Proof. split; reflexivity. Qed.

(** C3, on the code. For one source sentence, [max_len = 2] and [k = 1] the
    batched version returns the initial beam, of length [2], and the slow
    version, whose loop runs once more, returns a sequence of length [3]. *)
Theorem beam_search_versions_differ_at_max_len_2 :
  beam_search_decode 2 steady_network stable_topk sum_left float32_column 10 [[7; 8]] 0 1 2 1
  = Some (Ok (mkT2 2 [[0; 3]]))
  /\ beam_search_decode_slow 2 steady_network stable_topk sum_left float32_column [[7; 8]] 0 1 2 1
     = Ok (mkT2 3 [[0; 3; 3]]).
Proof. split; reflexivity. Qed.

(** The same at the default width [k = 5] cannot be run on a vocabulary of
    five, so here it is at [k = 2] with a budget of [4]: lengths [4] and [5]. *)
Example beam_search_versions_differ_at_max_len_4 :
  beam_search_decode 2 steady_network stable_topk sum_left float32_column 10 [[7; 8]] 0 1 4 2
  = Some (Ok (mkT2 4 [[0; 3; 3; 3]]))
  /\ beam_search_decode_slow 2 steady_network stable_topk sum_left float32_column [[7; 8]] 0 1 4 2
     = Ok (mkT2 5 [[0; 3; 3; 3; 3]]).
Proof. split; reflexivity. Qed.

(** On a batch with no sentence the initialization ends in the reshape. *)
Example beam_search_empty_batch_run :
  beam_search_decode 2 steady_network stable_topk sum_left float32_column
                     10 [] 0 1 4 2
  = Some (Raise (RuntimeError "cannot reshape tensor of 0 elements: the unspecified dimension size -1 is ambiguous"))
  /\ beam_search_decode_slow 2 steady_network stable_topk sum_left float32_column
                             [] 0 1 4 2
     = Raise (RuntimeError "cannot reshape tensor of 0 elements: the unspecified dimension size -1 is ambiguous").
Proof. split; reflexivity. Qed.

(** *** Concrete runs of the beam search helpers *)

Lemma score_sequence_masks_from_first_pad_witness :
  Forall2 (fun (t : list Z) (l : list float) => length t = length l)
          [[0; 7; 2; 9]] [[0%float; (-1)%float; (-2)%float; (-4)%float]]
  /\ fst (score_sequence_for_beam_search 2 sum_left [[0; 7; 2; 9]]
            [[0%float; (-1)%float; (-2)%float; (-4)%float]])
     = [[0%float; (-1)%float; 0%float; 0%float]].
Proof.
  assert (H : Forall2 (fun (t : list Z) (l : list float) => length t = length l)
                      [[0; 7; 2; 9]] [[0%float; (-1)%float; (-2)%float; (-4)%float]])
    by (repeat constructor).
  split; [exact H|].
  exact (f_equal fst (@score_sequence_masks_from_first_pad 2 sum_left _ _ H)).
Defined.

Lemma finalize_beams_pads_to_longest_witness :
  [[0; 3; 1]; [0; 4; 4; 3; 1]] <> []
  /\ exists t,
       finalize_beams_for_beam_search 2 [[0; 3; 1]; [0; 4; 4; 3; 1]] = Ok t
       /\ wf t
       /\ rows t = map (fun b => b ++ repeat 2 (width t - length b))
                       [[0; 3; 1]; [0; 4; 4; 3; 1]]
       /\ Forall (fun b => (length b <= width t)%nat) [[0; 3; 1]; [0; 4; 4; 3; 1]]
       /\ Exists (fun b => length b = width t) [[0; 3; 1]; [0; 4; 4; 3; 1]].
Proof.
  split; [discriminate|].
  apply (@finalize_beams_pads_to_longest 2 [[0; 3; 1]; [0; 4; 4; 3; 1]]).
  discriminate.
Defined.

Example finalize_beams_run :
  finalize_beams_for_beam_search 2 [[0; 3; 1]; [0; 4; 4; 3; 1]] =
  Ok (mkT2 5 [[0; 3; 1; 2; 2]; [0; 4; 4; 3; 1]]).
Proof. reflexivity. Qed.

Lemma beam_search_decode_slow_length_witness :
  beam_search_decode_slow 2 steady_network stable_topk sum_left float32_column [[7; 8]] 0 1 4 2
    = Ok (mkT2 5 [[0; 3; 3; 3; 3]])
  /\ Z.of_nat (width (mkT2 5 [[0; 3; 3; 3; 3]])) <= Z.max 2 (4 + 1).
Proof.
  assert (H : beam_search_decode_slow 2 steady_network stable_topk sum_left float32_column
                [[7; 8]] 0 1 4 2 = Ok (mkT2 5 [[0; 3; 3; 3; 3]])) by reflexivity.
  split; [exact H|].
  exact (@beam_search_decode_slow_length 2 steady_network stable_topk sum_left float32_column
           [[7; 8]] 0 1 4 2 (mkT2 5 [[0; 3; 3; 3; 3]]) H).
Defined.

Lemma beam_search_decode_length_witness :
  (Z.to_nat 4 <= 10)%nat
  /\ beam_search_decode 2 steady_network stable_topk sum_left float32_column 10 [[7; 8]] 0 1 4 2
     <> None
  /\ forall t,
       beam_search_decode 2 steady_network stable_topk sum_left float32_column 10 [[7; 8]] 0 1 4 2
         = Some (Ok t) ->
       Z.of_nat (width t) <= Z.max 2 4.
Proof.
  assert (H : (Z.to_nat 4 <= 10)%nat) by (simpl; lia).
  split; [exact H|].
  exact (@beam_search_decode_length 2 steady_network stable_topk sum_left float32_column 10
           [[7; 8]] 0 1 4 2 H).
Defined.

End Model.

(** * transformer_runner.py *)

Module Runner.

Open Scope Z_scope.

(** ** BLEU over a batch *)

(** [str(token)] of an [int]. *)
Definition str (token : Z) : string := NilZero.string_of_int (Z.to_int token).

(** The cleaning loop: a token outside [[sos_idx, eos_idx, pad_idx]] is
    kept as its decimal text, the eos token ends the loop, the other two
    are passed over. *)
Fixpoint clean (sos_idx eos_idx pad_idx : Z) (tokens : list Z) : list string :=
  match tokens with
  | [] => []
  | token :: rest =>
      if negb (in_list Z.eqb token [sos_idx; eos_idx; pad_idx]) then
        str token :: clean sos_idx eos_idx pad_idx rest
      else if token =? eos_idx then []
      else clean sos_idx eos_idx pad_idx rest
  end.

(** [enumerate(l)] *)
Definition enumerate {A : Type} (l : list A) : list (nat * A) :=
  combine (seq 0 (length l)) l.

Section BatchBleu.

Variable bleu_score_func : list string -> list string -> Z -> float.

(** [for j, n in enumerate(n_gram_levels): bleu[j] = bleu_score_func(...)] *)
Definition score_levels (ref_clean cand_clean : list string) (n_gram_levels : list Z)
                        (bleu : list float) : list float :=
  fold_left (fun bl (jn : nat * Z) =>
               list_set bl (fst jn) (bleu_score_func ref_clean cand_clean (snd jn)))
            (enumerate n_gram_levels) bleu.

(** [for i in range(batch_size)]: rows [i] of both tensors are read, and the
    candidate tensor may have too few of them. *)
Fixpoint batch_loop (target_y_ref target_y_cand : list (list Z))
                    (sos_idx eos_idx pad_idx : Z) (n_gram_levels : list Z)
                    (idx : list nat) (bleu : list float) : result (list float) :=
  match idx with
  | [] => Ok bleu
  | i :: rest =>
      match nth_error target_y_ref i, nth_error target_y_cand i with
      | Some ref_seq, Some cand_seq =>
          let ref_clean := clean sos_idx eos_idx pad_idx ref_seq in
          let cand_clean := clean sos_idx eos_idx pad_idx cand_seq in
          batch_loop target_y_ref target_y_cand sos_idx eos_idx pad_idx n_gram_levels
                     rest (score_levels ref_clean cand_clean n_gram_levels bleu)
      | _, _ => Raise IndexError
      end
  end.

Definition compute_batch_total_bleu (target_y_ref target_y_cand : list (list Z))
                                    (sos_idx eos_idx pad_idx : Z)
                                    (n_gram_levels : list Z)
  : result (list float * nat) :=
  let batch_size := length target_y_ref in
  let bleu := repeat 0%float (length n_gram_levels) in
  bleu' <- batch_loop target_y_ref target_y_cand sos_idx eos_idx pad_idx
                      n_gram_levels (seq 0 batch_size) bleu ;;
  Ok (bleu', batch_size).

(** The default of the parameter, which is what
    [compute_average_bleu_over_dataset] runs with. *)
Definition default_n_gram_levels : list Z := [4; 3].

Lemma list_set_length {A : Type} (l : list A) j (v : A) :
  length (list_set l j v) = length l.
Proof.
  revert j. induction l as [|h t IH]; intros [|j]; simpl; auto.
Qed.

Lemma list_set_app_mid {A : Type} (done : list A) (old v : A) (todo : list A) :
  list_set (done ++ old :: todo) (length done) v = done ++ v :: todo.
Proof.
  induction done as [|h t IH]; simpl; [reflexivity|now rewrite IH].
Qed.

(** The inner loop overwrites slot after slot: whatever the list held
    before, it holds the scores of this example afterwards. *)
Lemma score_levels_from ref_clean cand_clean levels done old k :
  length old = length levels ->
  k = length done ->
  fold_left (fun bl (jn : nat * Z) =>
               list_set bl (fst jn) (bleu_score_func ref_clean cand_clean (snd jn)))
            (combine (seq k (length levels)) levels) (done ++ old)
  = done ++ map (bleu_score_func ref_clean cand_clean) levels.
Proof.
  revert done old k. induction levels as [|n levels IH]; intros done old k Hlen Hk.
  - destruct old; [reflexivity|discriminate].
  - destruct old as [|o old]; [discriminate|]. simpl. subst k.
    rewrite list_set_app_mid.
    change (done ++ bleu_score_func ref_clean cand_clean n :: old)
      with (done ++ [bleu_score_func ref_clean cand_clean n] ++ old).
    rewrite app_assoc, (IH (done ++ [bleu_score_func ref_clean cand_clean n]) old).
    + now rewrite <- app_assoc.
    + simpl in Hlen. lia.
    + rewrite length_app. simpl. lia.
Qed.

Lemma score_levels_overwrites ref_clean cand_clean levels bleu :
  length bleu = length levels ->
  score_levels ref_clean cand_clean levels bleu =
  map (bleu_score_func ref_clean cand_clean) levels.
Proof.
  intros Hlen. unfold score_levels, enumerate.
  apply (@score_levels_from ref_clean cand_clean levels [] bleu 0%nat Hlen eq_refl).
Qed.

Lemma batch_loop_last refs cands sos_idx eos_idx pad_idx levels idx i bleu :
  length bleu = length levels ->
  (forall j, In j (idx ++ [i]) -> (j < length refs)%nat /\ (j < length cands)%nat) ->
  batch_loop refs cands sos_idx eos_idx pad_idx levels (idx ++ [i]) bleu =
  Ok (map (bleu_score_func (clean sos_idx eos_idx pad_idx (nth i refs []))
                           (clean sos_idx eos_idx pad_idx (nth i cands [])))
          levels).
Proof.
  revert bleu. induction idx as [|j idx IH]; intros bleu Hlen Hin; simpl.
  - destruct (Hin i (or_introl eq_refl)) as [Hr Hc].
    destruct (nth_error refs i) as [r|] eqn:Er;
      [|apply nth_error_None in Er; lia].
    destruct (nth_error cands i) as [c|] eqn:Ec;
      [|apply nth_error_None in Ec; lia].
    rewrite (nth_error_nth _ _ _ Er), (nth_error_nth _ _ _ Ec).
    now rewrite score_levels_overwrites.
  - destruct (Hin j (or_introl eq_refl)) as [Hr Hc].
    destruct (nth_error refs j) as [r|] eqn:Er;
      [|apply nth_error_None in Er; lia].
    destruct (nth_error cands j) as [c|] eqn:Ec;
      [|apply nth_error_None in Ec; lia].
    apply IH.
    + rewrite score_levels_overwrites by assumption. apply length_map.
    + intros x Hx. apply Hin. now right.
Qed.

(** C1. On a non-empty batch [compute_batch_total_bleu] returns, at each
    requested level, the score of the last example alone (row
    [batch_size - 1] of both tensors), and the batch size. *)
Theorem compute_batch_total_bleu_last
        (target_y_ref target_y_cand : list (list Z))
        (sos_idx eos_idx pad_idx : Z) (n_gram_levels : list Z) :
  target_y_ref <> [] ->
  (length target_y_ref <= length target_y_cand)%nat ->
  compute_batch_total_bleu target_y_ref target_y_cand sos_idx eos_idx pad_idx
                           n_gram_levels =
  Ok (map (bleu_score_func
             (clean sos_idx eos_idx pad_idx
                    (nth (length target_y_ref - 1) target_y_ref []))
             (clean sos_idx eos_idx pad_idx
                    (nth (length target_y_ref - 1) target_y_cand [])))
          n_gram_levels,
      length target_y_ref).
Proof.
  intros Hne Hlen. unfold compute_batch_total_bleu.
  destruct (length target_y_ref) as [|m] eqn:Em.
  - destruct target_y_ref; [congruence|discriminate].
  - rewrite seq_S. simpl Nat.add.
    rewrite batch_loop_last.
    + cbn [bind]. now replace (S m - 1)%nat with m by lia.
    + apply repeat_length.
    + intros j Hj. apply in_app_or in Hj as [Hj|[<-|[]]].
      * apply in_seq in Hj. lia.
      * lia.
Qed.

End BatchBleu.

(** A scorer for concrete runs: the number of cleaned candidate tokens times
    the level. *)
Definition count_scorer (ref_clean cand_clean : list string) (n : Z) : float :=
  Z2float (Z.of_nat (length cand_clean) * n).

Example clean_run : clean 0 1 2 [0; 15; 2; 27; 1; 33; 2] = ["15"; "27"]%string.
Proof. reflexivity. Qed.

(** Two examples: the first one's scores, [3 * 4] and [3 * 3], are not in
    what comes back. *)
Example compute_batch_total_bleu_run :
  compute_batch_total_bleu count_scorer [[0; 5; 6; 7; 1]; [0; 8; 1; 2; 2]]
                           [[0; 5; 6; 9; 1]; [0; 8; 1; 2; 2]] 0 1 2
                           default_n_gram_levels =
  Ok ([4%float; 3%float], 2%nat).
Proof. reflexivity. Qed.

Lemma compute_batch_total_bleu_last_witness :
  [[0; 5; 6; 7; 1]; [0; 8; 1; 2; 2]] <> []
  /\ (length [[0; 5; 6; 7; 1]; [0; 8; 1; 2; 2]]
      <= length [[0; 5; 6; 9; 1]; [0; 8; 1; 2; 2]])%nat
  /\ compute_batch_total_bleu count_scorer [[0; 5; 6; 7; 1]; [0; 8; 1; 2; 2]]
                              [[0; 5; 6; 9; 1]; [0; 8; 1; 2; 2]] 0 1 2
                              default_n_gram_levels =
     Ok (map (count_scorer (clean 0 1 2 [0; 8; 1; 2; 2]) (clean 0 1 2 [0; 8; 1; 2; 2]))
             default_n_gram_levels,
         2%nat).
Proof.
  split; [discriminate|]. split; [simpl; lia|].
  apply (@compute_batch_total_bleu_last count_scorer
           [[0; 5; 6; 7; 1]; [0; 8; 1; 2; 2]] [[0; 5; 6; 9; 1]; [0; 8; 1; 2; 2]]
           0 1 2 default_n_gram_levels).
  - discriminate.
  - simpl; lia.
Defined.

(** ** Further properties of the batch scorer *)

(** X18. [clean] drops everything from the first eos token on, drops the sos and
    the padding ids wherever they stand before it, and turns the ids that
    remain into their decimal texts, in order. *)
Theorem clean_closed_form (sos_idx eos_idx pad_idx : Z) (tokens : list Z) :
  clean sos_idx eos_idx pad_idx tokens =
  map str (filter (fun token => negb (in_list Z.eqb token [sos_idx; eos_idx; pad_idx]))
                  (firstn (Model.first_eos eos_idx tokens) tokens)).
Proof.
  induction tokens as [|token rest IH]; [reflexivity|].
  cbn [clean Model.first_eos].
  destruct (in_list Z.eqb token [sos_idx; eos_idx; pad_idx]) eqn:Ein; cbn [negb].
  - destruct (token =? eos_idx) eqn:Eeos; [reflexivity|].
    cbn [firstn filter]. rewrite Ein. cbn [negb]. exact IH.
  - assert (Eeos : (token =? eos_idx) = false).
    { unfold in_list in Ein. simpl in Ein.
      apply orb_false_elim in Ein as [_ Ein].
      now apply orb_false_elim in Ein as [Ein _]. }
    rewrite Eeos. cbn [firstn filter]. rewrite Ein. cbn [negb map]. now rewrite IH.
Qed.

Section BatchBleuFacts.

Variable bleu_score_func : list string -> list string -> Z -> float.

Lemma batch_loop_runs_out refs cands sos_idx eos_idx pad_idx levels m :
  forall a bleu,
    (a <= length cands)%nat -> (length cands < a + m)%nat ->
    batch_loop bleu_score_func refs cands sos_idx eos_idx pad_idx levels
               (seq a m) bleu = Raise IndexError.
Proof.
  induction m as [|m IH]; intros a bleu Ha Hm; [lia|].
  simpl. destruct (nth_error refs a) as [r|]; [|reflexivity].
  destruct (nth_error cands a) as [c|] eqn:Ec; [|reflexivity].
  apply IH; [|lia].
  assert (a < length cands)%nat by (apply nth_error_Some; congruence). lia.
Qed.

(** X19. A candidate tensor with fewer rows than the reference tensor makes
    [compute_batch_total_bleu] raise [IndexError], whatever the rows hold. *)
Theorem compute_batch_total_bleu_too_few_candidates
        (target_y_ref target_y_cand : list (list Z))
        (sos_idx eos_idx pad_idx : Z) (n_gram_levels : list Z) :
  (length target_y_cand < length target_y_ref)%nat ->
  compute_batch_total_bleu bleu_score_func target_y_ref target_y_cand
                           sos_idx eos_idx pad_idx n_gram_levels
  = Raise IndexError.
Proof.
  intros H. unfold compute_batch_total_bleu.
  rewrite batch_loop_runs_out; [reflexivity|lia|lia].
Qed.

(** The batch scorer on a batch with a sentence, through the loop lemma. *)
Lemma batch_loop_total refs cands sos_idx eos_idx pad_idx levels :
  refs <> [] -> (length refs <= length cands)%nat ->
  compute_batch_total_bleu bleu_score_func refs cands sos_idx eos_idx pad_idx levels =
  Ok (map (bleu_score_func
             (clean sos_idx eos_idx pad_idx (nth (length refs - 1) refs []))
             (clean sos_idx eos_idx pad_idx (nth (length refs - 1) cands [])))
          levels,
      length refs).
Proof.
  intros Hne Hlen. unfold compute_batch_total_bleu.
  destruct (length refs) as [|m] eqn:Em.
  - destruct refs; [congruence|discriminate].
  - rewrite seq_S. cbn [Nat.add].
    rewrite batch_loop_last.
    + cbn [bind]. now replace (S m - 1)%nat with m by lia.
    + apply repeat_length.
    + intros j Hj. apply in_app_or in Hj as [Hj|[<-|[]]].
      * apply in_seq in Hj. lia.
      * lia.
Qed.

End BatchBleuFacts.

Lemma compute_batch_total_bleu_too_few_candidates_witness :
  (length [[0; 5; 1]] < length [[0; 5; 1]; [0; 6; 1]])%nat
  /\ compute_batch_total_bleu count_scorer [[0; 5; 1]; [0; 6; 1]] [[0; 5; 1]]
                              0 1 2 default_n_gram_levels
     = Raise IndexError.
Proof.
  split; [simpl; lia|].
  apply (@compute_batch_total_bleu_too_few_candidates count_scorer
           [[0; 5; 1]; [0; 6; 1]] [[0; 5; 1]] 0 1 2 default_n_gram_levels).
  simpl; lia.
Defined.

(** ** [train_input_target_split] *)

(** [target_tokens[:, :-1]] and [target_tokens[:, 1:].reshape(-1)]. *)
Definition train_input_target_split (target_tokens : Model.LongTensor2)
  : Model.LongTensor2 * list Z :=
  let model_input :=
    Model.mkT2 (Model.width target_tokens - 1)
               (map (@removelast Z) (Model.rows target_tokens)) in
  let training_target := concat (map (@tl Z) (Model.rows target_tokens)) in
  (model_input, training_target).

Lemma nth_removelast {A : Type} (l : list A) (i : nat) (d : A) :
  (i + 1 < length l)%nat -> nth i (removelast l) d = nth i l d.
Proof.
  revert i. induction l as [|x l IH]; intros i H; [simpl in H; lia|].
  destruct l as [|y l]; [simpl in H; lia|].
  destruct i as [|i]; [reflexivity|].
  change (nth i (removelast (y :: l)) d = nth i (y :: l) d).
  apply IH. simpl in *. lia.
Qed.

Lemma nth_concat_uniform {A : Type} (m : nat) (ls : list (list A)) (d : A) :
  Forall (fun l => length l = m) ls ->
  forall b i, (i < m)%nat ->
    nth (b * m + i) (concat ls) d = nth i (nth b ls []) d.
Proof.
  induction 1 as [|l ls Hl _ IH]; intros b i Hi.
  - simpl. now destruct (b * m + i)%nat, b, i.
  - destruct b as [|b]; simpl.
    + apply app_nth1. lia.
    + rewrite app_nth2 by lia. rewrite <- (IH b i Hi). f_equal. lia.
Qed.

Lemma concat_uniform_length {A : Type} (m : nat) (ls : list (list A)) :
  Forall (fun l => length l = m) ls -> length (concat ls) = (length ls * m)%nat.
Proof.
  induction 1 as [|l ls Hl _ IH]; simpl; [reflexivity|].
  rewrite length_app, IH. lia.
Qed.

(** X20. For a well-formed batch of width [L], [train_input_target_split] gives
    a well-formed input of width [L - 1] and [batch_size * (L - 1)] labels;
    input position [i] of sentence [b] holds token [i] of that sentence and
    its label, at [b * (L - 1) + i], is token [i + 1]. *)
Theorem train_input_target_split_shift (target_tokens : Model.LongTensor2) :
  Model.wf target_tokens ->
  Model.wf (fst (train_input_target_split target_tokens))
  /\ Model.batch_size (fst (train_input_target_split target_tokens))
     = Model.batch_size target_tokens
  /\ length (snd (train_input_target_split target_tokens))
     = (Model.batch_size target_tokens * (Model.width target_tokens - 1))%nat
  /\ forall b i,
       (b < Model.batch_size target_tokens)%nat ->
       (i + 1 < Model.width target_tokens)%nat ->
       nth i (nth b (Model.rows (fst (train_input_target_split target_tokens))) []) 0
         = nth i (nth b (Model.rows target_tokens) []) 0
       /\ nth (b * (Model.width target_tokens - 1) + i)
              (snd (train_input_target_split target_tokens)) 0
          = nth (S i) (nth b (Model.rows target_tokens) []) 0.
Proof.
  intros Hwf. destruct target_tokens as [w rs]. unfold Model.wf in Hwf.
  unfold train_input_target_split, Model.batch_size. simpl in *.
  assert (Htl : Forall (fun l => length l = (w - 1)%nat) (map (@tl Z) rs)).
  { rewrite Forall_map. eapply Forall_impl; [|exact Hwf].
    intros r Hr. simpl in Hr. destruct r; simpl in *; lia. }
  split; [|split; [apply length_map|split]].
  - unfold Model.wf. simpl. rewrite Forall_map.
    eapply Forall_impl; [|exact Hwf]. intros r Hr. simpl in Hr.
    destruct r as [|x r]; [simpl in *; lia|].
    rewrite <- Hr. clear. revert x. induction r as [|y r IH]; intros x; [reflexivity|].
    change (S (length (removelast (y :: r))) = length (x :: y :: r) - 1)%nat.
    rewrite IH. simpl. lia.
  - rewrite (concat_uniform_length Htl). now rewrite length_map.
  - intros b i Hb Hi.
    assert (Hrow : length (nth b rs []) = w).
    { rewrite Forall_forall in Hwf. apply Hwf, nth_In, Hb. }
    split.
    + rewrite (Model.nth_map_in _ _ []) by exact Hb.
      apply nth_removelast. lia.
    + rewrite (nth_concat_uniform 0 Htl) by lia.
      rewrite (Model.nth_map_in _ _ []) by exact Hb.
      destruct (nth b rs []) as [|x r]; [simpl in Hrow; lia|reflexivity].
Qed.

Lemma train_input_target_split_shift_witness :
  Model.wf (Model.mkT2 4 [[0; 5; 6; 1]; [0; 7; 1; 2]])
  /\ train_input_target_split (Model.mkT2 4 [[0; 5; 6; 1]; [0; 7; 1; 2]])
     = (Model.mkT2 3 [[0; 5; 6]; [0; 7; 1]], [5; 6; 1; 7; 1; 2])
  /\ Model.wf (fst (train_input_target_split (Model.mkT2 4 [[0; 5; 6; 1]; [0; 7; 1; 2]]))).
Proof.
  assert (H : Model.wf (Model.mkT2 4 [[0; 5; 6; 1]; [0; 7; 1; 2]]))
    by (repeat constructor).
  split; [exact H|]. split; [reflexivity|].
  exact (proj1 (@train_input_target_split_shift
                  (Model.mkT2 4 [[0; 5; 6; 1]; [0; 7; 1; 2]]) H)).
Defined.

(** ** The training loop *)

Record TrainState : Type := mkTrain {
  cur_step : Z;
  cur_epoch : Z;
  best_bleu : float;
  num_poor : Z
}.

Definition initial_state : TrainState := mkTrain 0 1 0%float 0.

(** An epoch budget or a patience: an [int], or [float("inf")]. *)
Inductive bound : Type := Finite (n : Z) | Infinite.

Definition below (x : Z) (b : bound) : bool :=
  match b with Finite n => x <? n | Infinite => true end.

Definition at_most (x : Z) (b : bound) : bool :=
  match b with Finite n => x <=? n | Infinite => true end.

Section Train.

(** [self.opts.skip_eval] and the [n_gram_levels] argument. *)
Variable skip_eval : Z.
Variable n_gram_levels : list Z.

(** What the training pass and the validation pass of an epoch return: the
    loss with the number of steps, and the average BLEU of each level. *)
Variable train_for_epoch : Z -> float * Z.
Variable compute_average_bleu_over_dataset : Z -> list float.

(** Lines 229-233. *)
Definition early_stopping (bleu0 : float) (st : TrainState) : TrainState :=
  if PrimFloat.ltb bleu0 (best_bleu st) then
    mkTrain (cur_step st) (cur_epoch st) (best_bleu st) (num_poor st + 1)
  else
    mkTrain (cur_step st) (cur_epoch st) bleu0 0.

(** The body of the [while] loop. *)
Definition epoch (st : TrainState) : result TrainState :=
  let '(loss, num_steps) := train_for_epoch (cur_epoch st) in
  let st1 := mkTrain (cur_step st + num_steps) (cur_epoch st)
                     (best_bleu st) (num_poor st) in
  let bleu := if skip_eval <? cur_epoch st1
              then Some (compute_average_bleu_over_dataset (cur_epoch st1))
              else None in
  let bleu1 := match bleu with
               | Some b => b
               | None => repeat 0%float (length n_gram_levels)
               end in
  match nth_error bleu1 0 with
  | None => Raise IndexError
  | Some bleu0 =>
      let st2 := early_stopping bleu0 st1 in
      Ok (mkTrain (cur_step st2) (cur_epoch st2 + 1) (best_bleu st2) (num_poor st2))
  end.

(** [while cur_epoch <= self.max_epochs and num_poor < self.patience] *)
Fixpoint train_loop (fuel : nat) (max_epochs patience : bound) (st : TrainState)
  : option (result TrainState) :=
  if at_most (cur_epoch st) max_epochs && below (num_poor st) patience then
    match fuel with
    | O => None
    | S fuel' =>
        match epoch st with
        | Raise e => Some (Raise e)
        | Ok st' => train_loop fuel' max_epochs patience st'
        end
    end
  else Some (Ok st).

(** C5, as the code has it. In an epoch whose validation BLEU is computed,
    a first-level BLEU strictly below the best value so far adds one to the
    counter and keeps the best value; any other value, one equal to the
    best included, sets the counter to zero and becomes the best value. *)
Theorem epoch_early_stopping (st : TrainState) (bleu0 : float) (others : list float) :
  skip_eval < cur_epoch st ->
  compute_average_bleu_over_dataset (cur_epoch st) = bleu0 :: others ->
  exists st',
    epoch st = Ok st'
    /\ cur_epoch st' = cur_epoch st + 1
    /\ (PrimFloat.ltb bleu0 (best_bleu st) = true ->
        num_poor st' = num_poor st + 1 /\ best_bleu st' = best_bleu st)
    /\ (PrimFloat.ltb bleu0 (best_bleu st) = false ->
        num_poor st' = 0 /\ best_bleu st' = bleu0).
Proof.
  intros Hskip Hbleu. unfold epoch.
  destruct (train_for_epoch (cur_epoch st)) as [loss num_steps]. simpl.
  apply Z.ltb_lt in Hskip. rewrite Hskip, Hbleu. simpl.
  eexists. split; [reflexivity|]. unfold early_stopping. simpl.
  destruct (PrimFloat.ltb bleu0 (best_bleu st)); simpl; repeat split; congruence.
Qed.

End Train.

(** A validation pass that scores [0.0] at both levels in every epoch, and
    a training pass of ten steps. *)
Definition flat_validation (e : Z) : list float := [0%float; 0%float].

Definition unit_training (e : Z) : float * Z := (1%float, 10).

(** A validation pass whose first-level BLEU is [5.0], drops to [3.0] in
    the second epoch and is back at [5.0] from the third. *)
Definition dip_validation (e : Z) : list float :=
  if e =? 2 then [3%float; 1%float] else [5%float; 2%float].

Lemma epoch_early_stopping_witness :
  0 < cur_epoch initial_state
  /\ flat_validation (cur_epoch initial_state) = [0%float; 0%float]
  /\ exists st',
       epoch 0 default_n_gram_levels unit_training flat_validation
             initial_state = Ok st'
       /\ cur_epoch st' = cur_epoch initial_state + 1
       /\ (PrimFloat.ltb 0%float (best_bleu initial_state) = true ->
           num_poor st' = num_poor initial_state + 1
           /\ best_bleu st' = best_bleu initial_state)
       /\ (PrimFloat.ltb 0%float (best_bleu initial_state) = false ->
           num_poor st' = 0 /\ best_bleu st' = 0%float).
Proof.
  split; [simpl; lia|]. split; [reflexivity|].
  apply (@epoch_early_stopping 0 default_n_gram_levels unit_training flat_validation
           initial_state 0%float [0%float]).
  - simpl; lia.
  - reflexivity.
Defined.

(** C5 as stated fails when the new BLEU equals the best one. The loop is
    entered with a best value of [0.0] and no poor epoch; a first epoch
    whose BLEU is [0.0] does not exceed the best value, yet the counter is
    [0] after it and not [1]. *)
Lemma early_stopping_resets_on_tie :
  initial_state = mkTrain 0 1 0%float 0
  /\ flat_validation (cur_epoch initial_state) = [0%float; 0%float]
  /\ PrimFloat.leb 0%float (best_bleu initial_state) = true
  /\ epoch 0 default_n_gram_levels unit_training flat_validation initial_state
     = Ok (mkTrain 10 2 0%float 0)
  /\ num_poor (mkTrain 10 2 0%float 0) <> num_poor initial_state + 1.
Proof.
  split; [reflexivity|]. split; [reflexivity|]. split; [reflexivity|].
  split; [reflexivity|]. simpl. lia.
Qed.

(** The same later in a run: two epochs bring the loop to a best value of
    [5.0] and one poor epoch, and a third epoch that equals the best value
    puts the counter back to [0]. *)
Example early_stopping_tie_after_a_drop :
  train_loop 0 default_n_gram_levels unit_training dip_validation
             2 (Finite 2) (Finite 3) initial_state
  = Some (Ok (mkTrain 20 3 5%float 1))
  /\ PrimFloat.leb 5%float (best_bleu (mkTrain 20 3 5%float 1)) = true
  /\ epoch 0 default_n_gram_levels unit_training dip_validation
           (mkTrain 20 3 5%float 1)
     = Ok (mkTrain 30 4 5%float 0).
Proof. repeat split. Qed.

(** An epoch whose validation is skipped scores the placeholder [0.0]
    against the best value, which is still the initial [0.0]: the strict
    comparison is what keeps such epochs from counting as poor. *)
Example skipped_epoch_is_not_poor :
  epoch 2 default_n_gram_levels unit_training dip_validation initial_state
  = Ok (mkTrain 10 2 0%float 0).
Proof. reflexivity. Qed.

(** With a patience of [3] and validation stuck at one value the loop never
    counts a poor epoch: it is still running after any number of epochs. *)
Example train_loop_flat_validation :
  train_loop 0 default_n_gram_levels unit_training flat_validation
             50 Infinite (Finite 3) initial_state = None.
Proof. reflexivity. Qed.

(** ** Checkpoints *)

Inductive Device : Type := CPU | CUDA (index : nat).

Record TorchParam : Type := mkParam {
  p_name : string;
  p_value : list float;
  p_device : Device
}.

Definition move_to (d : Device) (model : list TorchParam) : list TorchParam :=
  map (fun p => mkParam (p_name p) (p_value p) d) model.

(** The runner, as far as [save_model] reads and writes it: the parameters
    of [self.model], [self.opts.model_path] and the files on disk. *)
Record Runner : Type := mkRunner {
  model : list TorchParam;
  model_path : Utils.Path;
  files : list (string * list Byte.byte)
}.

(** The names that the top level of [transformer_runner.py] binds: its
    imports and its class. *)
Definition module_globals : list string :=
  ["time"; "tqdm"; "argparse"; "Callable"; "Sequence"; "torch"; "utils";
   "dataloader"; "TransformerEncoderDecoder"; "BLEU_score"; "wandb";
   "TransformerRunner"]%string.

(** Looking a global name up. *)
Definition lookup_global (globals : list string) (name : string) : result unit :=
  if in_list String.eqb name globals then Ok tt else Raise (NameError name).

Section SaveModel.

(** The operating system, [pickle] as [torch.save] uses it and gzip. *)
Variable os_open : Utils.opener -> Utils.Path -> string -> result unit.
Variable pickle : list (string * list float) -> list Byte.byte.
Variable gzip_compress : list Byte.byte -> list Byte.byte.

Definition state_dict (m : list TorchParam) : list (string * list float) :=
  map (fun p => (p_name p, p_value p)) m.

(** Writing [data] through a handle and closing it. *)
Definition write_file (fs : list (string * list Byte.byte)) (h : Utils.handle)
                      (data : list Byte.byte) : list (string * list Byte.byte) :=
  let stored := match Utils.h_opener h with
                | Utils.GzipOpen => gzip_compress data
                | Utils.BuiltinOpen => data
                end in
  (Utils.path_text (Utils.h_path h), stored)
    :: filter (fun e => negb (String.eqb (fst e) (Utils.path_text (Utils.h_path h)))) fs.

(** [save_model], run in a module whose global names are [globals]. *)
Definition save_model (globals : list string) (self : Runner) : result unit * Runner :=
  match model self with
  | [] => (Raise StopIteration, self)
  | first :: _ =>
      let device := p_device first in
      let self1 := mkRunner (move_to CPU (model self)) (model_path self) (files self) in
      match lookup_global globals "a2_utils" with
      | Raise e => (Raise e, self1)
      | Ok _ =>
          match Utils.smart_open os_open (model_path self1) "wb" with
          | Raise e => (Raise e, self1)
          | Ok model_file =>
              let fs := write_file (files self1) model_file
                                   (pickle (state_dict (model self1))) in
              (Ok tt, mkRunner (move_to device (model self1)) (model_path self1) fs)
          end
      end
  end.

(** C2, on the code. The module imports [utils] and [save_model] asks for
    [a2_utils]: the call raises [NameError] after the parameters were moved
    to the CPU, writes no file and leaves the parameters on the CPU. *)
Theorem save_model_name_error (first : TorchParam) (others : list TorchParam)
                              (path : Utils.Path)
                              (fs : list (string * list Byte.byte)) :
  save_model module_globals (mkRunner (first :: others) path fs) =
  (Raise (NameError "a2_utils"),
   mkRunner (move_to CPU (first :: others)) path fs).
Proof. reflexivity. Qed.

Lemma move_to_move_to d d' (m : list TorchParam) :
  move_to d (move_to d' m) = move_to d m.
Proof.
  unfold move_to. rewrite map_map. reflexivity.
Qed.

Lemma move_to_same d (m : list TorchParam) :
  Forall (fun p => p_device p = d) m -> move_to d m = m.
Proof.
  induction 1 as [|p m Hp _ IH]; simpl; [reflexivity|].
  rewrite IH. destruct p as [n v dev]. simpl in *. now subst.
Qed.

(** What the same body does in a module that binds [a2_utils] to the
    utility module: the state is written through [smart_open] and the
    parameters end on the device they came from. *)
Lemma save_model_when_bound (globals : list string) (first : TorchParam)
                            (others : list TorchParam) (path : Utils.Path)
                            (fs : list (string * list Byte.byte)) (h : Utils.handle) :
  lookup_global globals "a2_utils" = Ok tt ->
  Utils.smart_open os_open path "wb" = Ok h ->
  Forall (fun p => p_device p = p_device first) (first :: others) ->
  save_model globals (mkRunner (first :: others) path fs) =
  (Ok tt,
   mkRunner (first :: others) path
            (write_file fs h (pickle (state_dict (first :: others))))).
Proof.
  intros Hg Hopen Hdev. unfold save_model.
  cbn [model model_path files]. rewrite Hg, Hopen.
  rewrite move_to_move_to, (move_to_same Hdev).
  do 3 f_equal. unfold state_dict, move_to. now rewrite map_map.
Qed.

End SaveModel.

(** ** [train_for_epoch] *)

Section TrainForEpoch.

(** The parameters with their gradients and the optimizer's moments, and a
    batch of the loader, are the library's. *)
Variable ModelState : Type.
Variable Batch : Type.

(** Steps 2 to 6 of an iteration: the loss of the batch divided by
    [accum_iter], as [loss.item()], and the state after [loss.backward()]. *)
Variable forward_backward : ModelState -> Batch -> Z -> float * ModelState.

(** [optimizer.step()] followed by [optimizer.zero_grad()]. *)
Variable optimizer_update : ModelState -> ModelState.

(** What an epoch changes: the model and the number of steps the scheduler
    has taken. *)
Record EpochState : Type := mkEpoch {
  model_state : ModelState;
  scheduler_steps : Z
}.

(** [train_step_optimizer_and_scheduler] *)
Definition train_step_optimizer_and_scheduler (st : EpochState) : EpochState :=
  mkEpoch (optimizer_update (model_state st)) (scheduler_steps st + 1).

(** The [for] loop over [enumerate(dataloader)]: [total] is [len(dataloader)],
    [i] the index of the first batch still to come. *)
Fixpoint epoch_loop (accum_iter total : Z) (batches : list Batch) (i : Z)
                    (st : EpochState) (total_loss : float) (num_iters : Z)
  : result (EpochState * float * Z) :=
  match batches with
  | [] => Ok (st, total_loss, num_iters)
  | batch :: rest =>
      let '(loss, m) := forward_backward (model_state st) batch accum_iter in
      let st1 := mkEpoch m (scheduler_steps st) in
      let total_loss1 := (total_loss + loss * Z2float accum_iter)%float in
      let num_iters1 := num_iters + 1 in
      if accum_iter =? 0 then Raise ZeroDivisionError
      else
        let st2 := if ((i + 1) mod accum_iter =? 0) || (i + 1 =? total)
                   then train_step_optimizer_and_scheduler st1 else st1 in
        epoch_loop accum_iter total rest (i + 1) st2 total_loss1 num_iters1
  end.

Definition train_for_epoch (dataloader : list Batch) (accum_iter : Z)
                                 (st : EpochState)
  : result (EpochState * float * Z) :=
  r <- epoch_loop accum_iter (Z.of_nat (length dataloader)) dataloader 0 st
                  0%float 0 ;;
  let '(st', total_loss, num_iters) := r in
  if num_iters =? 0 then Raise ZeroDivisionError
  else Ok (st', (total_loss / Z2float num_iters)%float, num_iters).

Lemma div_succ (a c : Z) :
  0 <= a -> 0 < c ->
  (a + 1) / c = a / c + (if (a + 1) mod c =? 0 then 1 else 0).
Proof.
  intros Ha Hc.
  pose proof (Z.div_mod a c ltac:(lia)) as Hdm.
  pose proof (Z.mod_pos_bound a c Hc) as Hr.
  destruct (Z.eq_dec (a mod c + 1) c) as [E|E].
  - assert (Hq : (a + 1) / c = a / c + 1)
      by (symmetry; apply (Z.div_unique (a + 1) c (a / c + 1) 0); lia).
    assert (Hm : (a + 1) mod c = 0)
      by (symmetry; apply (Z.mod_unique (a + 1) c (a / c + 1) 0); lia).
    rewrite Hq, Hm. reflexivity.
  - assert (Hq : (a + 1) / c = a / c)
      by (symmetry; apply (Z.div_unique (a + 1) c (a / c) (a mod c + 1)); lia).
    assert (Hm : (a + 1) mod c = a mod c + 1)
      by (symmetry; apply (Z.mod_unique (a + 1) c (a / c) (a mod c + 1)); lia).
    rewrite Hq, Hm. destruct (Z.eqb_spec (a mod c + 1) 0); lia.
Qed.

(** Up to the batch before the last one the scheduler steps once for every
    multiple of [accum_iter] passed; at the last batch it steps in any
    case. *)
Lemma epoch_loop_counts accum_iter total batches :
  0 < accum_iter ->
  forall i st total_loss num_iters,
    0 <= i ->
    i + Z.of_nat (length batches) <= total ->
    exists st' total_loss',
      epoch_loop accum_iter total batches i st total_loss num_iters
        = Ok (st', total_loss', num_iters + Z.of_nat (length batches))
      /\ scheduler_steps st' =
         scheduler_steps st
         + ((i + Z.of_nat (length batches)) / accum_iter - i / accum_iter)
         + (if (i + Z.of_nat (length batches) =? total)
               && negb (length batches =? 0)%nat
               && negb (total mod accum_iter =? 0)
            then 1 else 0).
Proof.
  intros Hacc. induction batches as [|batch rest IH];
    intros i st total_loss num_iters Hi Htotal.
  - exists st, total_loss. simpl. split; [do 2 f_equal; lia|].
    rewrite Z.add_0_r, Z.sub_diag, andb_false_r. simpl. lia.
  - cbn [epoch_loop].
    destruct (forward_backward (model_state st) batch accum_iter) as [loss m].
    destruct (Z.eqb_spec accum_iter 0) as [E|_]; [lia|].
    cbn [length] in *. rewrite Nat2Z.inj_succ in *.
    set (st2 := if ((i + 1) mod accum_iter =? 0) || (i + 1 =? total)
                then train_step_optimizer_and_scheduler
                       (mkEpoch m (scheduler_steps st))
                else mkEpoch m (scheduler_steps st)).
    destruct (IH (i + 1) st2 (total_loss + loss * Z2float accum_iter)%float
                 (num_iters + 1)) as [st' [tl' [Hrun Hsteps]]]; [lia|lia|].
    exists st', tl'. split.
    + rewrite Hrun. do 2 f_equal. lia.
    + rewrite Hsteps. clear Hrun Hsteps IH.
      replace (i + 1 + Z.of_nat (length rest)) with (i + Z.succ (Z.of_nat (length rest)))
        by lia.
      rewrite (div_succ Hi Hacc).
      assert (Hst2 : scheduler_steps st2 =
                     scheduler_steps st
                     + (if ((i + 1) mod accum_iter =? 0) || (i + 1 =? total)
                        then 1 else 0)).
      { unfold st2.
        destruct (((i + 1) mod accum_iter =? 0) || (i + 1 =? total)); simpl; lia. }
      rewrite Hst2.
      destruct (Z.eqb_spec ((i + 1) mod accum_iter) 0) as [Em|Em];
        destruct (Z.eqb_spec (i + 1) total) as [Et|Et];
        destruct (Z.eqb_spec (i + Z.succ (Z.of_nat (length rest))) total) as [El|El];
        destruct (Nat.eqb_spec (length rest) 0) as [Er|Er];
        destruct (Z.eqb_spec (total mod accum_iter) 0) as [Etm|Etm];
        cbn [orb andb negb Nat.eqb]; try lia;
        try (rewrite <- Et in Etm; contradiction);
        try (rewrite Et in Em; contradiction).
Qed.

(** X21. With [accum_iter >= 1] and at least one batch, [train_for_epoch]
    returns the number of batches as its iteration count and has stepped
    the optimizer and the scheduler [ceil(len(dataloader) / accum_iter)]
    times: once per full group of [accum_iter] batches, and once more for a
    last group that is not full. *)
Theorem train_for_epoch_step_count (dataloader : list Batch) (accum_iter : Z)
                                   (st : EpochState) :
  0 < accum_iter -> dataloader <> [] ->
  exists st' loss,
    train_for_epoch dataloader accum_iter st
      = Ok (st', loss, Z.of_nat (length dataloader))
    /\ scheduler_steps st' =
       scheduler_steps st
       + (Z.of_nat (length dataloader) + accum_iter - 1) / accum_iter.
Proof.
  intros Hacc Hne. unfold train_for_epoch.
  set (n := Z.of_nat (length dataloader)).
  assert (Hn : 0 < n) by (destruct dataloader; [congruence|unfold n; simpl; lia]).
  destruct (@epoch_loop_counts accum_iter n dataloader Hacc 0 st 0%float 0)
    as [st' [tl [Hrun Hsteps]]]; [lia|fold n; lia|].
  rewrite Hrun. cbn [bind]. fold n. rewrite Z.add_0_l.
  destruct (Z.eqb_spec n 0) as [E|_]; [lia|].
  eexists. eexists. split; [reflexivity|].
  rewrite Hsteps. fold n. rewrite Z.add_0_l, Z.eqb_refl. cbn [andb].
  assert (Hlen : (length dataloader =? 0)%nat = false)
    by (apply Nat.eqb_neq; destruct dataloader; [congruence|discriminate]).
  rewrite Hlen. cbn [negb andb]. rewrite Z.div_0_l by lia.
  pose proof (Z.div_mod n accum_iter ltac:(lia)) as Hdm.
  pose proof (Z.mod_pos_bound n accum_iter Hacc) as Hr.
  destruct (Z.eqb_spec (n mod accum_iter) 0) as [Em|Em]; cbn [negb].
  - assert ((n + accum_iter - 1) / accum_iter = n / accum_iter)
      by (symmetry;
          apply (Z.div_unique (n + accum_iter - 1) accum_iter (n / accum_iter)
                              (accum_iter - 1)); lia).
    lia.
  - assert ((n + accum_iter - 1) / accum_iter = n / accum_iter + 1)
      by (symmetry;
          apply (Z.div_unique (n + accum_iter - 1) accum_iter (n / accum_iter + 1)
                              (n mod accum_iter - 1)); lia).
    lia.
Qed.

(** X22. An empty loader makes [train_for_epoch] divide by zero when it averages
    the loss, and [accum_iter = 0] makes it divide by zero at the first
    batch. *)
Theorem train_for_epoch_division_by_zero (dataloader : list Batch) (accum_iter : Z)
                                         (st : EpochState) :
  dataloader = [] \/ accum_iter = 0 ->
  train_for_epoch dataloader accum_iter st = Raise ZeroDivisionError.
Proof.
  unfold train_for_epoch. intros [->| ->]; [reflexivity|].
  destruct dataloader as [|batch rest]; [reflexivity|].
  cbn [epoch_loop].
  destruct (forward_backward (model_state st) batch 0) as [loss m]. reflexivity.
Qed.

End TrainForEpoch.

(** A concrete run: the model state is the number of optimizer updates. *)
Definition unit_loss (updates : Z) (batch : nat) (accum_iter : Z) : float * Z :=
  ((1 / Z2float accum_iter)%float, updates).

Example train_for_epoch_run :
  train_for_epoch unit_loss Z.succ [1; 2; 3; 4; 5]%nat 2 (mkEpoch 0 0)
  = Ok (mkEpoch 3 3, 1%float, 5).
Proof. reflexivity. Qed.

Lemma train_for_epoch_step_count_witness :
  0 < 2 /\ [1; 2; 3; 4; 5]%nat <> []
  /\ exists st' loss,
       train_for_epoch unit_loss Z.succ [1; 2; 3; 4; 5]%nat 2 (mkEpoch 0 0)
         = Ok (st', loss, Z.of_nat (length [1; 2; 3; 4; 5]%nat))
       /\ scheduler_steps st' =
          scheduler_steps (mkEpoch 0 0)
          + (Z.of_nat (length [1; 2; 3; 4; 5]%nat) + 2 - 1) / 2.
Proof.
  split; [lia|]. split; [discriminate|].
  apply (@train_for_epoch_step_count Z nat unit_loss Z.succ [1; 2; 3; 4; 5]%nat 2
           (mkEpoch 0 0)).
  - lia.
  - discriminate.
Defined.

Lemma train_for_epoch_division_by_zero_witness :
  (@nil nat = [] \/ 2 = 0)
  /\ train_for_epoch unit_loss Z.succ (@nil nat) 2 (mkEpoch 0 0)
     = Raise ZeroDivisionError.
Proof.
  split; [now left|].
  apply (@train_for_epoch_division_by_zero Z nat unit_loss Z.succ (@nil nat) 2
           (mkEpoch 0 0)).
  now left.
Defined.

(** ** [compute_average_bleu_over_dataset] *)

Section AverageBleu.

Variable bleu_score_func : list string -> list string -> Z -> float.

(** The decoder the flag selects, greedy or beam search: the candidates for
    a batch of source sentences within a length budget. *)
Variable decode : list (list Z) -> Z -> list (list Z).

(** [total_bleu[j] += batch_bleu[j]] for [j in range(len(batch_bleu))]. *)
Fixpoint add_levels (total_bleu batch_bleu : list float) (j : nat)
  : result (list float) :=
  match batch_bleu with
  | [] => Ok total_bleu
  | b :: rest =>
      t <- item total_bleu j ;;
      add_levels (list_set total_bleu j (t + b)%float) rest (S j)
  end.

(** The loop over the loader, for a model in evaluation mode (the [assert]
    at the top). A batch is its source rows and its target tensor. *)
Fixpoint average_loop (sos_idx eos_idx pad_idx max_len : Z)
                      (dataloader : list (list (list Z) * Model.LongTensor2))
                      (total_bleu : list float) (num : float)
  : result (list float * float) :=
  match dataloader with
  | [] => Ok (total_bleu, num)
  | (source_tokens, target_tokens) :: rest =>
      let max_len_i := Z.min (Z.of_nat (Model.width target_tokens) + 5) max_len in
      let candidates := decode source_tokens max_len_i in
      r <- compute_batch_total_bleu bleu_score_func (Model.rows target_tokens)
                                    candidates sos_idx eos_idx pad_idx
                                    default_n_gram_levels ;;
      total_bleu' <- add_levels total_bleu (fst r) 0 ;;
      average_loop sos_idx eos_idx pad_idx max_len rest total_bleu'
                   (num + nat2float (snd r))%float
  end.

(** [tuple(b / num for b in total_bleu)] *)
Definition divide_all (total_bleu : list float) (num : float) : result (list float) :=
  mapM (fun b => if PrimFloat.eqb num 0%float then Raise ZeroDivisionError
                 else Ok (b / num)%float) total_bleu.

Definition compute_average_bleu_over_dataset
           (dataloader : list (list (list Z) * Model.LongTensor2))
           (sos_idx eos_idx pad_idx max_len : Z) (n_gram_levels : list Z)
  : result (list float) :=
  let total_bleu := repeat 0%float (length n_gram_levels) in
  r <- average_loop sos_idx eos_idx pad_idx max_len dataloader total_bleu 0%float ;;
  divide_all (fst r) (snd r).

(** The score that a batch contributes at a level: that of its last
    example. *)
Definition last_example_score (sos_idx eos_idx pad_idx max_len : Z)
                              (batch : list (list Z) * Model.LongTensor2) (n : Z) : float :=
  let refs := Model.rows (snd batch) in
  let cands := decode (fst batch)
                      (Z.min (Z.of_nat (Model.width (snd batch)) + 5) max_len) in
  bleu_score_func (clean sos_idx eos_idx pad_idx (nth (length refs - 1) refs []))
                  (clean sos_idx eos_idx pad_idx (nth (length refs - 1) cands []))
                  n.

(** A batch the loop gets through: it has a sentence, and the decoder
    returns a candidate for every sentence. *)
Definition regular_batch (max_len : Z) (batch : list (list Z) * Model.LongTensor2) : Prop :=
  Model.rows (snd batch) <> []
  /\ (length (Model.rows (snd batch))
      <= length (decode (fst batch)
                        (Z.min (Z.of_nat (Model.width (snd batch)) + 5) max_len)))%nat.

Lemma average_loop_sums sos_idx eos_idx pad_idx max_len dataloader :
  Forall (regular_batch max_len) dataloader ->
  forall t4 t3 num,
    average_loop sos_idx eos_idx pad_idx max_len dataloader [t4; t3] num =
    Ok ([fold_left (fun a batch =>
                      (a + last_example_score sos_idx eos_idx pad_idx max_len batch 4)%float)
                   dataloader t4;
         fold_left (fun a batch =>
                      (a + last_example_score sos_idx eos_idx pad_idx max_len batch 3)%float)
                   dataloader t3],
        fold_left (fun a (batch : list (list Z) * Model.LongTensor2) =>
                     (a + nat2float (length (Model.rows (snd batch))))%float)
                  dataloader num).
Proof.
  induction 1 as [|[source target] rest [Hne Hlen] _ IH]; intros t4 t3 num;
    [reflexivity|].
  cbn [average_loop]. simpl in Hne, Hlen.
  rewrite (@batch_loop_total bleu_score_func (Model.rows target)
             (decode source (Z.min (Z.of_nat (Model.width target) + 5) max_len))
             sos_idx eos_idx pad_idx default_n_gram_levels Hne Hlen).
  cbn [bind fst snd map default_n_gram_levels add_levels item nth_error list_set].
  rewrite IH. reflexivity.
Qed.

(** X23. Over a loader of regular batches and for any two requested levels, the
    function sums, batch by batch, the BLEU-4 and the BLEU-3 of the last
    example of the batch alone, whatever the two requested levels are,
    and divides both sums by the number of all examples; it raises
    [ZeroDivisionError] when that number is zero. *)
Theorem compute_average_bleu_over_dataset_sums
        (dataloader : list (list (list Z) * Model.LongTensor2))
        (sos_idx eos_idx pad_idx max_len : Z) (level_a level_b : Z) :
  Forall (regular_batch max_len) dataloader ->
  compute_average_bleu_over_dataset dataloader sos_idx eos_idx pad_idx max_len
                                    [level_a; level_b] =
  (let num := fold_left (fun a (batch : list (list Z) * Model.LongTensor2) =>
                           (a + nat2float (length (Model.rows (snd batch))))%float)
                        dataloader 0%float in
   let total n := fold_left (fun a batch =>
                               (a + last_example_score sos_idx eos_idx pad_idx
                                                       max_len batch n)%float)
                            dataloader 0%float in
   if PrimFloat.eqb num 0%float then Raise ZeroDivisionError
   else Ok [(total 4%Z / num)%float; (total 3%Z / num)%float]).
Proof.
  intros H. unfold compute_average_bleu_over_dataset.
  cbn [length repeat]. rewrite (average_loop_sums sos_idx eos_idx pad_idx H).
  cbn [bind fst snd divide_all mapM].
  destruct (PrimFloat.eqb _ 0%float); reflexivity.
Qed.

(** X24. Without a batch the function raises [ZeroDivisionError] as soon as one
    level is requested. *)
Theorem compute_average_bleu_over_empty_dataset
        (sos_idx eos_idx pad_idx max_len : Z) (n_gram_levels : list Z) :
  n_gram_levels <> [] ->
  compute_average_bleu_over_dataset [] sos_idx eos_idx pad_idx max_len n_gram_levels
  = Raise ZeroDivisionError.
Proof.
  intros H. destruct n_gram_levels as [|n rest]; [congruence|reflexivity].
Qed.

(** X25. Asked for fewer than two levels, the function raises [IndexError] at
    its first regular batch: the batch scorer always answers with two
    scores and the list of totals is too short for them. *)
Theorem compute_average_bleu_too_few_levels
        (batch : list (list Z) * Model.LongTensor2)
        (rest : list (list (list Z) * Model.LongTensor2))
        (sos_idx eos_idx pad_idx max_len : Z) (n_gram_levels : list Z) :
  (length n_gram_levels < 2)%nat ->
  regular_batch max_len batch ->
  compute_average_bleu_over_dataset (batch :: rest) sos_idx eos_idx pad_idx max_len
                                    n_gram_levels
  = Raise IndexError.
Proof.
  intros Hlen [Hne Hrows]. unfold compute_average_bleu_over_dataset.
  destruct batch as [source target]. cbn [average_loop]. simpl in Hne, Hrows.
  rewrite (@batch_loop_total bleu_score_func (Model.rows target)
             (decode source (Z.min (Z.of_nat (Model.width target) + 5) max_len))
             sos_idx eos_idx pad_idx default_n_gram_levels Hne Hrows).
  destruct n_gram_levels as [|a [|b more]]; [reflexivity|reflexivity|].
  simpl in Hlen. lia.
Qed.

End AverageBleu.

(** A decoder for concrete runs: it answers every source sentence with the
    sequence sos, [5], eos. *)
Definition fixed_decode (source_tokens : list (list Z)) (max_len : Z) : list (list Z) :=
  map (fun _ => [0; 5; 1]) source_tokens.

(** Two batches of two sentences: the average is taken over four examples
    and counts two of them. *)
Example compute_average_bleu_over_dataset_run :
  compute_average_bleu_over_dataset count_scorer fixed_decode
    [([[7]; [8]], Model.mkT2 3 [[0; 5; 1]; [0; 6; 1]]);
     ([[9]; [7]], Model.mkT2 3 [[0; 5; 1]; [0; 5; 1]])] 0 1 2 100 [1; 2]
  = Ok [2%float; 1.5%float].
Proof. reflexivity. Qed.

Lemma compute_average_bleu_over_dataset_sums_witness :
  Forall (regular_batch fixed_decode 100)
         [([[7]; [8]], Model.mkT2 3 [[0; 5; 1]; [0; 6; 1]])]
  /\ compute_average_bleu_over_dataset count_scorer fixed_decode
       [([[7]; [8]], Model.mkT2 3 [[0; 5; 1]; [0; 6; 1]])] 0 1 2 100 [1; 2]
     = Ok [2%float; 1.5%float].
Proof.
  assert (H : Forall (regular_batch fixed_decode 100)
                     [([[7]; [8]], Model.mkT2 3 [[0; 5; 1]; [0; 6; 1]])]).
  { constructor; [|constructor]. split; [discriminate|simpl; lia]. }
  split; [exact H|].
  exact (@compute_average_bleu_over_dataset_sums count_scorer fixed_decode
           [([[7]; [8]], Model.mkT2 3 [[0; 5; 1]; [0; 6; 1]])] 0 1 2 100 1 2 H).
Defined.

Lemma compute_average_bleu_over_empty_dataset_witness :
  default_n_gram_levels <> []
  /\ compute_average_bleu_over_dataset count_scorer fixed_decode [] 0 1 2 100
                                       default_n_gram_levels
     = Raise ZeroDivisionError.
Proof.
  split; [discriminate|].
  apply (@compute_average_bleu_over_empty_dataset count_scorer fixed_decode
           0 1 2 100 default_n_gram_levels).
  discriminate.
Defined.

Lemma compute_average_bleu_too_few_levels_witness :
  (length [4] < 2)%nat
  /\ regular_batch fixed_decode 100 ([[7]; [8]], Model.mkT2 3 [[0; 5; 1]; [0; 6; 1]])
  /\ compute_average_bleu_over_dataset count_scorer fixed_decode
       [([[7]; [8]], Model.mkT2 3 [[0; 5; 1]; [0; 6; 1]])] 0 1 2 100 [4]
     = Raise IndexError.
Proof.
  assert (H1 : (length [4] < 2)%nat) by (simpl; lia).
  assert (H2 : regular_batch fixed_decode 100
                 ([[7]; [8]], Model.mkT2 3 [[0; 5; 1]; [0; 6; 1]]))
    by (split; [discriminate|simpl; lia]).
  split; [exact H1|]. split; [exact H2|].
  exact (@compute_average_bleu_too_few_levels count_scorer fixed_decode
           ([[7]; [8]], Model.mkT2 3 [[0; 5; 1]; [0; 6; 1]]) [] 0 1 2 100 [4] H1 H2).
Defined.

(** ** The stopping rule of the training loop *)

(** The end of [__init__]: a patience option that is set and not zero makes
    the epoch budget infinite; otherwise the budget is the [epochs] option,
    [7] when there is none, and the patience is infinite. *)
Definition stopping_rule (opt_patience opt_epochs : option Z) : bound * bound :=
  match opt_patience with
  | Some p =>
      if p =? 0 then
        (Finite (match opt_epochs with Some e => e | None => 7 end), Infinite)
      else (Infinite, Finite p)
  | None => (Finite (match opt_epochs with Some e => e | None => 7 end), Infinite)
  end.

Lemma ltb_irrefl (x : float) : PrimFloat.ltb x x = false.
Proof.
  rewrite FloatAxioms.ltb_spec. unfold SpecFloat.SFltb.
  destruct (FloatOps.Prim2SF x) as [s|s| |s m e]; simpl; try reflexivity.
  - now destruct s.
  - rewrite Z.compare_refl, Pos.compare_cont_refl. now destruct s.
Qed.

Section TrainFacts.

Variable skip_eval : Z.
Variable n_gram_levels : list Z.
Variable train_pass : Z -> float * Z.
Variable validation_pass : Z -> list float.

(** [train], run in a module whose global names are [globals]. Before the
    loop the method builds the optimizer and the scheduler. [LambdaLR]
    calls its [lr_lambda] once while it is built, and the lambda reads the
    global [a2_utils]: a module that does not bind the name ends the call
    there. The loss, the device and the visualization that follow are the
    library's. The loop is then entered at epoch [1] with a best BLEU of
    [0.0] and no poor epoch, under the bounds of [__init__]. *)
Definition train (globals : list string) (fuel : nat)
                 (opt_patience opt_epochs : option Z)
  : option (result TrainState) :=
  match lookup_global globals "a2_utils" with
  | Raise e => Some (Raise e)
  | Ok _ =>
      let '(max_epochs, patience) := stopping_rule opt_patience opt_epochs in
      train_loop skip_eval n_gram_levels train_pass validation_pass
                 fuel max_epochs patience initial_state
  end.

(** X29. In the module as it is written, which imports [utils] and never
    binds [a2_utils], [train] raises [NameError] while the scheduler is
    built: no epoch is run, whatever the options and the data. *)
Theorem train_name_error (fuel : nat) (opt_patience opt_epochs : option Z) :
  train module_globals fuel opt_patience opt_epochs
  = Some (Raise (NameError "a2_utils")).
Proof. reflexivity. Qed.

Hypothesis levels_requested : n_gram_levels <> [].
Hypothesis validation_scores : forall e, validation_pass e <> [].

Lemma epoch_returns (st : TrainState) :
  exists st',
    epoch skip_eval n_gram_levels train_pass validation_pass st = Ok st'
    /\ cur_epoch st' = cur_epoch st + 1.
Proof.
  unfold epoch. destruct (train_pass (cur_epoch st)) as [loss num_steps].
  cbn [cur_epoch].
  destruct (skip_eval <? cur_epoch st).
  - destruct (validation_pass (cur_epoch st)) as [|b rest] eqn:E;
      [now apply validation_scores in E|].
    simpl. eexists. split; [reflexivity|].
    unfold early_stopping. destruct (PrimFloat.ltb _ _); reflexivity.
  - destruct n_gram_levels as [|n rest]; [contradiction|].
    simpl. eexists. split; [reflexivity|].
    unfold early_stopping. destruct (PrimFloat.ltb _ _); reflexivity.
Qed.

Lemma train_loop_budget (n : Z) (fuel : nat) :
  forall st,
    (Z.to_nat (n + 1 - cur_epoch st) <= fuel)%nat ->
    exists st',
      train_loop skip_eval n_gram_levels train_pass validation_pass
                 fuel (Finite n) Infinite st = Some (Ok st')
      /\ cur_epoch st' = Z.max (cur_epoch st) (n + 1).
Proof.
  induction fuel as [|fuel IH]; intros st Hfuel; simpl;
    rewrite andb_true_r; destruct (Z.leb_spec (cur_epoch st) n) as [Hle|Hgt];
    try (exists st; split; [reflexivity|lia]); [lia|].
  destruct (epoch_returns st) as [st1 [Hst1 Hnext]]. rewrite Hst1.
  destruct (IH st1) as [st' [Hrun Hlast]]; [lia|].
  exists st'. split; [exact Hrun|lia].
Qed.

(** X26. In a module that binds [a2_utils], so that the loop of [train] is
    reached: without a patience option, or with a patience of [0], the loop
    runs as many epochs as the [epochs] option says, [7] by default, and
    stops; at the end the epoch counter is one past the budget. *)
Theorem train_runs_the_epoch_budget (globals : list string) (fuel : nat)
                                    (opt_patience opt_epochs : option Z) :
  lookup_global globals "a2_utils" = Ok tt ->
  opt_patience = None \/ opt_patience = Some 0 ->
  (Z.to_nat (match opt_epochs with Some e => e | None => 7 end) <= fuel)%nat ->
  exists st',
    train globals fuel opt_patience opt_epochs = Some (Ok st')
    /\ cur_epoch st' = Z.max 1 (match opt_epochs with Some e => e | None => 7 end + 1).
Proof.
  intros Hbound Hp Hfuel. unfold train. rewrite Hbound.
  assert (E : stopping_rule opt_patience opt_epochs =
              (Finite (match opt_epochs with Some e => e | None => 7 end), Infinite))
    by (destruct Hp as [-> | ->]; reflexivity).
  rewrite E. apply (train_loop_budget _ initial_state). simpl. lia.
Qed.

(** The state in which the loop stays when validation returns the same
    first-level BLEU [b] for ever. *)
Definition stuck (b : float) (st : TrainState) : Prop :=
  num_poor st = 0
  /\ PrimFloat.ltb b (best_bleu st) = false
  /\ (cur_epoch st <= skip_eval -> PrimFloat.ltb 0%float (best_bleu st) = false).

Lemma epoch_keeps_stuck (b : float) (others : list float) (st : TrainState) :
  (forall e, validation_pass e = b :: others) ->
  PrimFloat.ltb b 0%float = false ->
  stuck b st ->
  exists st',
    epoch skip_eval n_gram_levels train_pass validation_pass st = Ok st'
    /\ stuck b st'.
Proof.
  intros Hval Hb [Hpoor [Hbest Hskip]]. unfold epoch.
  destruct (train_pass (cur_epoch st)) as [loss num_steps]. cbn [cur_epoch].
  destruct (Z.ltb_spec skip_eval (cur_epoch st)) as [Hrun|Hskipped].
  - rewrite Hval. simpl. unfold early_stopping. simpl. rewrite Hbest.
    eexists. split; [reflexivity|]. unfold stuck. simpl.
    split; [reflexivity|]. split; [apply ltb_irrefl|]. lia.
  - destruct n_gram_levels as [|n rest]; [contradiction|].
    simpl. unfold early_stopping. simpl. rewrite (Hskip Hskipped).
    eexists. split; [reflexivity|]. unfold stuck. simpl.
    split; [reflexivity|]. split; [exact Hb|]. intros _.
    first [reflexivity|apply ltb_irrefl].
Qed.

(** X27. In a module that binds [a2_utils], so that the loop of [train] is
    reached: with a patience that is set and positive, and a validation
    pass whose first-level BLEU is the same value, not below zero, every
    epoch (a model stuck at [0.0], say), the loop never ends: the counter
    of poor epochs stays at zero, so no amount of fuel brings the loop to
    its exit. *)
Theorem train_never_ends_on_constant_bleu (globals : list string)
                                          (patience : Z) (opt_epochs : option Z)
                                          (b : float) (others : list float) :
  lookup_global globals "a2_utils" = Ok tt ->
  0 < patience ->
  (forall e, validation_pass e = b :: others) ->
  PrimFloat.ltb b 0%float = false ->
  forall fuel, train globals fuel (Some patience) opt_epochs = None.
Proof.
  intros Hbound Hp Hval Hb fuel. unfold train, stopping_rule. rewrite Hbound.
  destruct (Z.eqb_spec patience 0) as [E|_]; [lia|].
  assert (G : forall st, stuck b st ->
                train_loop skip_eval n_gram_levels train_pass validation_pass
                           fuel Infinite (Finite patience) st = None).
  { induction fuel as [|fuel IH]; intros st Hst; simpl;
      destruct Hst as [Hpoor Hrest]; rewrite Hpoor;
      destruct (Z.ltb_spec 0 patience); try lia; [reflexivity|].
    destruct (@epoch_keeps_stuck b others st Hval Hb (conj Hpoor Hrest))
      as [st' [Hst' Hstuck]].
    rewrite Hst'. now apply IH. }
  apply G. unfold stuck, initial_state. simpl.
  split; [reflexivity|]. split; [exact Hb|]. intros _.
  first [reflexivity|apply ltb_irrefl].
Qed.

End TrainFacts.

(** The module's names with [a2_utils] bound next to them. *)
Definition patched_globals : list string := "a2_utils"%string :: module_globals.

Lemma train_runs_the_epoch_budget_witness :
  default_n_gram_levels <> []
  /\ (forall e, flat_validation e <> [])
  /\ lookup_global patched_globals "a2_utils" = Ok tt
  /\ (Some 0 = @None Z \/ Some 0 = Some 0)
  /\ (Z.to_nat 7 <= 7)%nat
  /\ exists st',
       train 0 default_n_gram_levels unit_training flat_validation
             patched_globals 7 (Some 0) None
         = Some (Ok st')
       /\ cur_epoch st' = Z.max 1 (7 + 1).
Proof.
  assert (H1 : default_n_gram_levels <> []) by discriminate.
  assert (H2 : forall e, flat_validation e <> []) by (intros e; discriminate).
  assert (H0 : lookup_global patched_globals "a2_utils" = Ok tt) by reflexivity.
  assert (H3 : Some 0 = @None Z \/ Some 0 = Some 0) by now right.
  assert (H4 : (Z.to_nat 7 <= 7)%nat) by (simpl; lia).
  repeat (split; [assumption|]).
  exact (@train_runs_the_epoch_budget 0 default_n_gram_levels unit_training
           flat_validation H1 H2 patched_globals 7%nat (Some 0) None H0 H3 H4).
Defined.

Lemma train_never_ends_on_constant_bleu_witness :
  default_n_gram_levels <> []
  /\ lookup_global patched_globals "a2_utils" = Ok tt
  /\ 0 < 3
  /\ (forall e, flat_validation e = [0%float; 0%float])
  /\ PrimFloat.ltb 0%float 0%float = false
  /\ forall fuel,
       train 0 default_n_gram_levels unit_training flat_validation
             patched_globals fuel (Some 3) None
       = None.
Proof.
  assert (H1 : default_n_gram_levels <> []) by discriminate.
  assert (H0 : lookup_global patched_globals "a2_utils" = Ok tt) by reflexivity.
  assert (H2 : 0 < 3) by lia.
  assert (H3 : forall e, flat_validation e = [0%float; 0%float]) by reflexivity.
  assert (H4 : PrimFloat.ltb 0%float 0%float = false) by reflexivity.
  repeat (split; [assumption|]).
  exact (@train_never_ends_on_constant_bleu 0 default_n_gram_levels unit_training
           flat_validation H1 patched_globals 3 None 0%float [0%float] H0 H2 H3 H4).
Defined.

(** The run of [train] in the module as written and in the patched one. *)
Example train_run :
  train 0 default_n_gram_levels unit_training dip_validation
        module_globals 7 None (Some 3)
  = Some (Raise (NameError "a2_utils"))
  /\ train 0 default_n_gram_levels unit_training dip_validation
           patched_globals 7 None (Some 3)
     = Some (Ok (mkTrain 30 4 5%float 0)).
Proof. split; reflexivity. Qed.

End Runner.
